(** * The symbol-set engine of [discord/enums.py]

    A shallow embedding of [EnumMeta], [Enum], [try_enum] and of the
    concrete symbol sets the properties below talk about, together with
    the fragment of Python's data model the code relies on: object
    identity, hashing, rich comparison ([==] with its reflected fallback)
    and dictionary lookup.

    Objects live in a store: [EnumMeta.__new__] allocates the namedtuple
    class, one record per distinct raw value and the class itself, and
    stamps the namedtuple class with [_actual_enum_cls_] afterwards, so
    records are told apart by identity and find their symbol set through
    the store.  Code that only reads takes the store as an argument and
    returns a value or an exception; code that writes runs in a state
    and exception monad.

    The general theorems are about symbol sets declared by a namespace
    with distinct, non-empty names and scalar raw values ([attrs_ok]);
    the facts about [ButtonStyle], [ButtonColor], [ComponentType] and
    [AuditLogAction] are evaluated in the store the module leaves. *)

From Stdlib Require Import ZArith Lia Ascii.
From stdpp Require Import base option list gmap strings fin_maps.

Set Warnings "-notation-for-abbreviation,-register-all".

Open Scope Z_scope.
Open Scope string_scope.
Open Scope list_scope.

(** ** Python values *)

(** Object identities ([id(x)]). *)
Notation oid := nat (only parsing).

(** The objects that can reach the engine: [None], [bool], [int], [str],
    a [list] (the unhashable representative), an instance of some plain
    class (with or without an [_actual_enum_cls_] attribute, which then
    holds the object with the given identity), and the records built by
    the [namedtuple] class of [_create_value_cls]: identity, identity of
    their namedtuple class, and the two fields [name] and [value]. *)
Inductive pyval : Type :=
| PNone
| PBool (b : bool)
| PInt (z : Z)
| PStr (s : string)
| PList (items : list pyval)
| PObj (id : oid) (backref : option oid)
| PSym (id : oid) (vcls : oid) (name : string) (value : pyval).

Definition sym_id (v : pyval) : option oid :=
  match v with PSym i _ _ _ => Some i | _ => None end.
Definition sym_vcls (v : pyval) : option oid :=
  match v with PSym _ c _ _ => Some c | _ => None end.
Definition sym_name (v : pyval) : option string :=
  match v with PSym _ _ n _ => Some n | _ => None end.
Definition sym_value (v : pyval) : option pyval :=
  match v with PSym _ _ _ x => Some x | _ => None end.
Definition is_sym (v : pyval) : bool :=
  match v with PSym _ _ _ _ => true | _ => false end.

(** ** Exceptions *)

Inductive exn : Type :=
| KeyError
| IndexError
| AttributeError
| NameError (name : string)
| TypeError (msg : string)
| ValueError (value : pyval) (cls_name : string).
   (* ValueError("%r is not a valid %s" % (value, cls.__name__)) *)

Inductive res (E A : Type) : Type :=
| Ok (a : A)
| Raise (e : E).
Arguments Ok {E A} a.
Arguments Raise {E A} e.

Notation result := (res exn).
(** Computations whose only failure is a [TypeError] carry its message. *)
Notation tresult := (res string).

Definition res_bind {E A B} (r : res E A) (k : A -> res E B) : res E B :=
  match r with Ok a => k a | Raise e => Raise e end.

Notation "'do' x <- r ; k" := (res_bind r (fun x => k))
  (at level 10, x name, r at level 100, k at level 200).

Definition lift_type_error {A} (r : tresult A) : result A :=
  match r with Ok a => Ok a | Raise msg => Raise (TypeError msg) end.

(** ** The classes behind the symbols *)

Inductive field := Fname | Fvalue.

(** The functions and properties written in the class bodies of
    [enums.py]; each is bound under its own name.
    - [Def_str f]   : [def __str__(self): return self.f]  (also spelt [getattr(self, 'f')])
    - [Def_repr f]  : [def __repr__(self): return getattr(self, 'f')]
    - [Def_int f]   : [def __int__(self): return self.f]
    - [Def_eq]      : [def __eq__(self, other): return int(self) == other or str(self) == other]
    - [Prop_category], [Prop_target_type] : the two properties of [AuditLogAction]. *)
Inductive descr : Type :=
| Def_str (f : field)
| Def_repr (f : field)
| Def_int (f : field)
| Def_eq
| Prop_category
| Prop_target_type.

Definition descr_name (d : descr) : string :=
  match d with
  | Def_str _ => "__str__"
  | Def_repr _ => "__repr__"
  | Def_int _ => "__int__"
  | Def_eq => "__eq__"
  | Prop_category => "category"
  | Prop_target_type => "target_type"
  end.

(** The namedtuple class made by [_create_value_cls name]: the enum name
    captured by its two lambdas ([__repr__] and [__str__]), what
    [setattr(value_cls, key, value)] has installed over them, and the
    [_actual_enum_cls_] attribute once it is set. *)
Record ValueCls : Type := {
  vc_name : string;
  vc_str : option field;
  vc_repr : option field;
  vc_int : option field;
  vc_eq : bool;
  vc_category : bool;
  vc_target_type : bool;
  _actual_enum_cls_ : option oid
}.

(** [setattr(value_cls, key, value)] for a descriptor [value]. *)
Definition vc_setattr (d : descr) (c : ValueCls) : ValueCls :=
  match d with
  | Def_str f => {| vc_name := vc_name c; vc_str := Some f; vc_repr := vc_repr c;
                    vc_int := vc_int c; vc_eq := vc_eq c; vc_category := vc_category c;
                    vc_target_type := vc_target_type c; _actual_enum_cls_ := _actual_enum_cls_ c |}
  | Def_repr f => {| vc_name := vc_name c; vc_str := vc_str c; vc_repr := Some f;
                    vc_int := vc_int c; vc_eq := vc_eq c; vc_category := vc_category c;
                    vc_target_type := vc_target_type c; _actual_enum_cls_ := _actual_enum_cls_ c |}
  | Def_int f => {| vc_name := vc_name c; vc_str := vc_str c; vc_repr := vc_repr c;
                    vc_int := Some f; vc_eq := vc_eq c; vc_category := vc_category c;
                    vc_target_type := vc_target_type c; _actual_enum_cls_ := _actual_enum_cls_ c |}
  | Def_eq => {| vc_name := vc_name c; vc_str := vc_str c; vc_repr := vc_repr c;
                    vc_int := vc_int c; vc_eq := true; vc_category := vc_category c;
                    vc_target_type := vc_target_type c; _actual_enum_cls_ := _actual_enum_cls_ c |}
  | Prop_category => {| vc_name := vc_name c; vc_str := vc_str c; vc_repr := vc_repr c;
                    vc_int := vc_int c; vc_eq := vc_eq c; vc_category := true;
                    vc_target_type := vc_target_type c; _actual_enum_cls_ := _actual_enum_cls_ c |}
  | Prop_target_type => {| vc_name := vc_name c; vc_str := vc_str c; vc_repr := vc_repr c;
                    vc_int := vc_int c; vc_eq := vc_eq c; vc_category := vc_category c;
                    vc_target_type := true; _actual_enum_cls_ := _actual_enum_cls_ c |}
  end.

(** [value_cls._actual_enum_cls_ = actual_cls] *)
Definition vc_set_actual (a : oid) (c : ValueCls) : ValueCls :=
  {| vc_name := vc_name c; vc_str := vc_str c; vc_repr := vc_repr c;
     vc_int := vc_int c; vc_eq := vc_eq c; vc_category := vc_category c;
     vc_target_type := vc_target_type c; _actual_enum_cls_ := Some a |}.

(** ** Hashing

    [hash(x)] is kept symbolic: a hash code records exactly what
    CPython's hash depends on, so that two codes are equal when the
    hashes are ([hash(1) == hash(True)], equal strings, a tuple hashed
    from its items, any other object by identity).  Accidental
    collisions between unrelated values are not modelled. *)
Inductive hcode : Type :=
| HNone
| HNum (z : Z)
| HStr (s : string)
| HObj (id : oid)
| HTuple (name : string) (value : hcode).

#[global] Instance hcode_eq_dec : EqDecision hcode.
Proof. solve_decision. Defined.

(** [hash(v)]; a list is unhashable, and so is a tuple holding one. *)
Fixpoint py_hash (v : pyval) : tresult hcode :=
  match v with
  | PNone => Ok HNone
  | PBool b => Ok (HNum (Z.b2z b))
  | PInt z => Ok (HNum z)
  | PStr s => Ok (HStr s)
  | PList _ => Raise "unhashable type: 'list'"
  | PObj i _ => Ok (HObj i)
  | PSym _ _ n x => do h <- py_hash x; Ok (HTuple n h)
  end.

(** ** Classes and the object store *)

(** The class methods written in [enums.py]. *)
Inductive cmethod : Type :=
| CM_try_value     (* Enum.try_value *)
| CM_from_value.   (* from_value: return try_enum(cls, value) *)

(** An item of the namespace a class body hands to the metaclass
    ([attrs]): [key = v], a class method, or one of the definitions
    above under its own name. *)
Inductive entry : Type :=
| Assign (key : string) (v : pyval)
| Classmethod (key : string) (m : cmethod)
| Def (d : descr).

Definition entry_key (e : entry) : string :=
  match e with
  | Assign k _ => k
  | Classmethod k _ => k
  | Def d => descr_name d
  end.

(** What a class namespace binds a name to. *)
Inductive attr : Type :=
| AValue (v : pyval)
| AClassmethod (m : cmethod)
| ADescr (d : descr).

Definition entry_attr (e : entry) : attr :=
  match e with
  | Assign _ v => AValue v
  | Classmethod _ m => AClassmethod m
  | Def d => ADescr d
  end.

(** A class made by [EnumMeta.__new__]: its [__name__], its bases, its
    namespace, and the three entries [EnumMeta.__new__] adds to it. *)
Record EnumClass : Type := {
  cls_name : string;
  cls_bases : list oid;
  cls_dict : gmap string attr;
  _enum_value_map_ : list (pyval * pyval);
  _enum_member_map_ : gmap string pyval;
  _enum_member_names_ : list string
}.

(** The store: the next free identity, the namedtuple classes, the enum
    classes and the module's global names. *)
Record World : Type := {
  next_oid : oid;
  value_classes : gmap nat ValueCls;
  enum_classes : gmap nat EnumClass;
  globals : gmap string nat
}.

Definition empty_world : World :=
  {| next_oid := 0%nat; value_classes := ∅; enum_classes := ∅; globals := ∅ |}.

(** ** Identity, [int()], [str()] and [==] *)

(** [a is b].  Records and plain instances are compared by identity;
    [None], [True] and [False] are singletons; ints and strs are read as
    interned, which no use below can tell from the truth since [==]
    agrees on them; the identity of list objects is not tracked. *)
Definition py_is (a b : pyval) : bool :=
  match a, b with
  | PNone, PNone => true
  | PBool x, PBool y => Bool.eqb x y
  | PInt x, PInt y => Z.eqb x y
  | PStr x, PStr y => String.eqb x y
  | PObj i _, PObj j _ => Nat.eqb i j
  | PSym i _ _ _, PSym j _ _ _ => Nat.eqb i j
  | _, _ => false
  end.

(** [type(s)] for a record [s]; an identity that names no class made by
    [_create_value_cls] is read as a namedtuple class left as made. *)
Definition plain_value_cls : ValueCls :=
  {| vc_name := ""; vc_str := None; vc_repr := None; vc_int := None; vc_eq := false;
     vc_category := false; vc_target_type := false; _actual_enum_cls_ := None |}.

Definition value_cls_of (w : World) (vc : oid) : ValueCls :=
  default plain_value_cls (value_classes w !! vc).

Definition get_field (f : field) (name : string) (value : pyval) : pyval :=
  match f with Fname => PStr name | Fvalue => value end.

(** [int(self)] on a record: [__int__] must be defined and return an int
    (a bool is accepted and converted). *)
Definition py_int (w : World) (vc : oid) (name : string) (value : pyval) : tresult pyval :=
  match vc_int (value_cls_of w vc) with
  | None => Raise "int() argument must be a string, a bytes-like object or a real number"
  | Some f =>
      match get_field f name value with
      | PInt z => Ok (PInt z)
      | PBool b => Ok (PInt (Z.b2z b))
      | _ => Raise "__int__ returned non-int"
      end
  end.

(** [str(self)] on a record: the class's [__str__], by default the lambda
    of [_create_value_cls], ['%s.%s' % (name, self.name)]. *)
Definition py_str (w : World) (vc : oid) (name : string) (value : pyval) : tresult pyval :=
  match vc_str (value_cls_of w vc) with
  | None => Ok (PStr (vc_name (value_cls_of w vc) +:+ "." +:+ name))
  | Some f =>
      match get_field f name value with
      | PStr s => Ok (PStr s)
      | _ => Raise "__str__ returned non-string"
      end
  end.

(** [type(a).__eq__(a, b)] for the built-in scalar types and plain
    instances; [None] stands for [NotImplemented]. *)
Definition scalar_eq (a b : pyval) : option bool :=
  match a, b with
  | PNone, PNone => Some true
  | PBool x, PBool y => Some (Bool.eqb x y)
  | PBool x, PInt y => Some (Z.eqb (Z.b2z x) y)
  | PInt x, PBool y => Some (Z.eqb x (Z.b2z y))
  | PInt x, PInt y => Some (Z.eqb x y)
  | PStr x, PStr y => Some (String.eqb x y)
  | PObj i _, PObj j _ => if Nat.eqb i j then Some true else None
  | _, _ => None
  end.

Definition is_scalar (v : pyval) : bool :=
  match v with
  | PNone | PBool _ | PInt _ | PStr _ | PObj _ _ => true
  | PList _ | PSym _ _ _ _ => false
  end.

(** [a == b] between two scalars: [a]'s [__eq__], then [b]'s reflected
    one, then identity. *)
Definition scalar_scalar_eq (a b : pyval) : bool :=
  match scalar_eq a b with
  | Some r => r
  | None => match scalar_eq b a with
            | Some r => r
            | None => py_is a b
            end
  end.

(** The body of [ComponentType.__eq__] run on [self] against a scalar
    [other]: [int(self) == other or str(self) == other]. *)
Definition user_eq_scalar (w : World) (vc : oid) (name : string) (value other : pyval)
  : tresult bool :=
  do i <- py_int w vc name value;
  if scalar_scalar_eq i other then Ok true
  else do s <- py_str w vc name value; Ok (scalar_scalar_eq s other).

(** [a == b] for a scalar [a] and any [b].  When [a]'s [__eq__] answers
    [NotImplemented], Python asks [type(b).__eq__(b, a)]: the built-in
    types answer [NotImplemented] again for a foreign operand, and the
    result is then [a is b]; a record whose class carries [Def_eq] runs
    its body with [a] as [other]. *)
Definition scalar_any_eq (w : World) (a b : pyval) : tresult bool :=
  match scalar_eq a b with
  | Some r => Ok r
  | None =>
      match b with
      | PSym _ vc n x =>
          if vc_eq (value_cls_of w vc) then user_eq_scalar w vc n x a
          else Ok false
      | PList _ => Ok false
      | _ => Ok (scalar_scalar_eq a b)
      end
  end.

(** The body of [ComponentType.__eq__] on [self] and any [other]. *)
Definition user_eq (w : World) (vc : oid) (name : string) (value other : pyval)
  : tresult bool :=
  do i <- py_int w vc name value;
  do r <- scalar_any_eq w i other;
  if r then Ok true
  else do s <- py_str w vc name value; scalar_any_eq w s other.

(** [a == b] in general.  A list compares item-wise with a list, a
    record (a tuple) item-wise with a record; items are compared with
    the identity shortcut of [PyObject_RichCompareBool]; lists of
    different lengths are unequal before any item is looked at. *)
Fixpoint py_eq (w : World) (a b : pyval) {struct a} : tresult bool :=
  match a with
  | PNone | PBool _ | PInt _ | PStr _ | PObj _ _ => scalar_any_eq w a b
  | PList xs =>
      match b with
      | PList ys =>
          if Nat.eqb (length xs) (length ys) then
            (fix items (xs ys : list pyval) {struct xs} : tresult bool :=
               match xs, ys with
               | x :: xs', y :: ys' =>
                   do r <- (if py_is x y then Ok true else py_eq w x y);
                   if r then items xs' ys' else Ok false
               | _, _ => Ok true
               end) xs ys
          else Ok false
      | PSym _ vc n x =>
          if vc_eq (value_cls_of w vc) then user_eq w vc n x a else Ok false
      | _ => Ok false
      end
  | PSym _ vc n x =>
      if vc_eq (value_cls_of w vc) then user_eq w vc n x b
      else
        match b with
        | PSym _ vc' n' x' =>
            if String.eqb n n' then (if py_is x x' then Ok true else py_eq w x x')
            else Ok false
        | _ => Ok false
        end
  end.

(** ** Dictionaries

    A [dict] keyed by arbitrary objects, in insertion order.  A stored
    key matches a looked-up key when their hashes agree and the stored
    key is the very object or compares equal to it
    ([stored is key or stored == key]). *)
Definition pydict := list (pyval * pyval).

Definition key_matches (w : World) (h : hcode) (key : pyval) (stored : pyval) : tresult bool :=
  match py_hash stored with
  | Ok h' =>
      if bool_decide (h' = h) then
        (if py_is stored key then Ok true else py_eq w stored key)
      else Ok false
  | Raise _ => Ok false
  end.

Fixpoint dict_find (w : World) (h : hcode) (key : pyval) (d : pydict)
  : tresult (option pyval) :=
  match d with
  | [] => Ok None
  | (k, x) :: d' =>
      do m <- key_matches w h key k;
      if m then Ok (Some x) else dict_find w h key d'
  end.

(** [d[key]] *)
Definition dict_get (w : World) (d : pydict) (key : pyval) : result pyval :=
  do h <- lift_type_error (py_hash key);
  do r <- lift_type_error (dict_find w h key d);
  match r with
  | Some x => Ok x
  | None => Raise KeyError
  end.

(** [d[key] = x] *)
Fixpoint dict_replace (w : World) (h : hcode) (key x : pyval) (d : pydict)
  : tresult (option pydict) :=
  match d with
  | [] => Ok None
  | (k, y) :: d' =>
      do m <- key_matches w h key k;
      if m then Ok (Some ((k, x) :: d'))
      else do r <- dict_replace w h key x d';
           Ok (option_map (cons (k, y)) r)
  end.

Definition dict_set (w : World) (d : pydict) (key x : pyval) : result pydict :=
  do h <- lift_type_error (py_hash key);
  do r <- lift_type_error (dict_replace w h key x d);
  match r with
  | Some d' => Ok d'
  | None => Ok (d ++ [(key, x)])
  end.

(** ** Stateful computations

    Code that allocates objects or writes to classes runs in a state and
    exception monad over the store; an exception keeps the writes made
    before it. *)
Definition M (A : Type) : Type := World -> result A * World.

Definition ret {A} (a : A) : M A := fun w => (Ok a, w).
Definition raise {A} (e : exn) : M A := fun w => (Raise e, w).
Definition bind {A B} (m : M A) (k : A -> M B) : M B :=
  fun w => match m w with
           | (Ok a, w') => k a w'
           | (Raise e, w') => (Raise e, w')
           end.
Definition read {A} (f : World -> result A) : M A := fun w => (f w, w).
Definition modify (f : World -> World) : M unit := fun w => (Ok tt, f w).

Notation "'let!' x ':=' m 'in' k" := (bind m (fun x => k))
  (at level 10, x name, m at level 100, k at level 200).

(** A fresh object identity. *)
Definition alloc : M oid :=
  fun w => (Ok (next_oid w),
            {| next_oid := S (next_oid w); value_classes := value_classes w;
               enum_classes := enum_classes w; globals := globals w |}).

Definition set_value_cls (vc : oid) (c : ValueCls) : M unit :=
  modify (fun w => {| next_oid := next_oid w;
                      value_classes := <[vc := c]> (value_classes w);
                      enum_classes := enum_classes w; globals := globals w |}).

Definition update_value_cls (vc : oid) (f : ValueCls -> ValueCls) : M unit :=
  modify (fun w => {| next_oid := next_oid w;
                      value_classes := <[vc := f (value_cls_of w vc)]> (value_classes w);
                      enum_classes := enum_classes w; globals := globals w |}).

Definition set_enum_cls (c : oid) (k : EnumClass) : M unit :=
  modify (fun w => {| next_oid := next_oid w; value_classes := value_classes w;
                      enum_classes := <[c := k]> (enum_classes w); globals := globals w |}).

Definition set_global (name : string) (c : oid) : M unit :=
  modify (fun w => {| next_oid := next_oid w; value_classes := value_classes w;
                      enum_classes := enum_classes w; globals := <[name := c]> (globals w) |}).

(** ** [_create_value_cls] and [_is_descriptor] *)

(** [namedtuple('_EnumValue_' + name, 'name value')] with the two
    lambdas, which only capture [name]. *)
Definition _create_value_cls (name : string) : M oid :=
  let! cls := alloc in
  let! _ := set_value_cls cls
              {| vc_name := name; vc_str := None; vc_repr := None; vc_int := None;
                 vc_eq := false; vc_category := false; vc_target_type := false;
                 _actual_enum_cls_ := None |} in
  ret cls.

(** [hasattr(obj, '__get__') or hasattr(obj, '__set__') or hasattr(obj, '__delete__')]:
    functions, properties and class methods have [__get__]; none of the
    values of [pyval] has any of the three. *)
Definition _is_descriptor (obj : entry) : bool :=
  match obj with
  | Assign _ _ => false
  | Classmethod _ _ => true
  | Def _ => true
  end.

(** [isinstance(value, classmethod)] *)
Definition is_classmethod (obj : entry) : bool :=
  match obj with Classmethod _ _ => true | _ => false end.

(** [key[0]] *)
Definition str_first (key : string) : result Ascii.ascii :=
  match key with
  | EmptyString => Raise IndexError
  | String c _ => Ok c
  end.

(** ** [EnumMeta.__new__] *)

(** The locals the loop of [__new__] updates. *)
Record NewState : Type := {
  value_mapping : pydict;
  member_mapping : gmap string pyval;
  member_names : list string;
  attrs_now : gmap string attr
}.

(** The namespace [attrs] as a dict. *)
Definition attrs_init (attrs : list entry) : gmap string attr :=
  list_to_map (map (fun e => (entry_key e, entry_attr e)) attrs).

(** One turn of [for key, value in list(attrs.items())]. *)
Definition new_step (value_cls : oid) (st : NewState) (e : entry) : M NewState :=
  let key := entry_key e in
  let is_descriptor := _is_descriptor e in
  let! c := read (fun _ => str_first key) in
  if Ascii.eqb c "_"%char && negb is_descriptor then ret st          (* continue *)
  else if is_classmethod e then ret st                               (* continue *)
  else
    match e with
    | Def d =>
        (* setattr(value_cls, key, value); del attrs[key]; continue *)
        let! _ := update_value_cls value_cls (vc_setattr d) in
        ret {| value_mapping := value_mapping st; member_mapping := member_mapping st;
               member_names := member_names st; attrs_now := delete key (attrs_now st) |}
    | Classmethod _ _ => ret st
    | Assign _ value =>
        fun w =>
          match dict_get w (value_mapping st) value with
          | Ok new_value =>
              (Ok {| value_mapping := value_mapping st;
                     member_mapping := <[key := new_value]> (member_mapping st);
                     member_names := member_names st;
                     attrs_now := <[key := AValue new_value]> (attrs_now st) |}, w)
          | Raise KeyError =>
              (let! new_id := alloc in
               let new_value := PSym new_id value_cls key value in
               let! vm := read (fun w => dict_set w (value_mapping st) value new_value) in
               ret {| value_mapping := vm;
                      member_mapping := <[key := new_value]> (member_mapping st);
                      member_names := member_names st ++ [key];
                      attrs_now := <[key := AValue new_value]> (attrs_now st) |}) w
          | Raise err => (Raise err, w)
          end
    end.

Fixpoint new_loop (value_cls : oid) (st : NewState) (items : list entry) : M NewState :=
  match items with
  | [] => ret st
  | e :: rest => let! st' := new_step value_cls st e in new_loop value_cls st' rest
  end.

Definition EnumMeta_new (name : string) (bases : list oid) (attrs : list entry) : M oid :=
  let! value_cls := _create_value_cls name in
  let! st := new_loop value_cls
               {| value_mapping := []; member_mapping := ∅; member_names := [];
                  attrs_now := attrs_init attrs |} attrs in
  (* actual_cls = super().__new__(cls, name, bases, attrs) *)
  let! actual_cls := alloc in
  let! _ := set_enum_cls actual_cls
              {| cls_name := name; cls_bases := bases; cls_dict := attrs_now st;
                 _enum_value_map_ := value_mapping st;
                 _enum_member_map_ := member_mapping st;
                 _enum_member_names_ := member_names st |} in
  let! _ := update_value_cls value_cls (vc_set_actual actual_cls) in
  ret actual_cls.

(** ** The other methods of [EnumMeta] *)

(** Reading an attribute that [EnumMeta.__new__] put on [cls]. *)
Definition enum_class (w : World) (cls : oid) : result EnumClass :=
  match enum_classes w !! cls with
  | Some k => Ok k
  | None => Raise AttributeError
  end.

(** [cls._enum_member_map_[name]] *)
Definition member_map_get (k : EnumClass) (name : string) : result pyval :=
  match _enum_member_map_ k !! name with
  | Some s => Ok s
  | None => Raise KeyError
  end.

(** Running a generator [(f(x) for x in xs)] to its end. *)
Fixpoint generate {A B} (f : A -> result B) (xs : list A) : result (list B) :=
  match xs with
  | [] => Ok []
  | x :: xs' => do y <- f x; do ys <- generate f xs'; Ok (y :: ys)
  end.

Definition EnumMeta_iter (w : World) (cls : oid) : result (list pyval) :=
  do k <- enum_class w cls;
  generate (member_map_get k) (_enum_member_names_ k).

Definition EnumMeta_reversed (w : World) (cls : oid) : result (list pyval) :=
  do k <- enum_class w cls;
  generate (member_map_get k) (rev (_enum_member_names_ k)).

Definition EnumMeta_len (w : World) (cls : oid) : result nat :=
  do k <- enum_class w cls;
  Ok (length (_enum_member_names_ k)).

(** The [__members__] property: a read-only view of the member map. *)
Definition EnumMeta_members (w : World) (cls : oid) : result (gmap string pyval) :=
  do k <- enum_class w cls;
  Ok (_enum_member_map_ k).

Definition EnumMeta_call (w : World) (cls : oid) (value : pyval) : result pyval :=
  do k <- enum_class w cls;
  match dict_get w (_enum_value_map_ k) value with
  | Ok s => Ok s
  | Raise KeyError | Raise (TypeError _) => Raise (ValueError value (cls_name k))
  | Raise e => Raise e
  end.

Definition EnumMeta_getitem (w : World) (cls : oid) (key : string) : result pyval :=
  do k <- enum_class w cls;
  member_map_get k key.

Definition EnumMeta_setattr (cls : oid) (name : string) (value : pyval) : M unit :=
  raise (TypeError "Enums are immutable.").

Definition EnumMeta_delattr (cls : oid) (attr : string) : M unit :=
  raise (TypeError "Enums are immutable").

(** [instance._actual_enum_cls_]: a record finds the attribute on its
    namedtuple class, a plain instance on itself, nothing else has it. *)
Definition getattr_actual_enum_cls (w : World) (instance : pyval) : result oid :=
  match instance with
  | PSym _ vc _ _ =>
      match _actual_enum_cls_ (value_cls_of w vc) with
      | Some c => Ok c
      | None => Raise AttributeError
      end
  | PObj _ (Some c) => Ok c
  | _ => Raise AttributeError
  end.

Definition EnumMeta_instancecheck (w : World) (self : oid) (instance : pyval) : result bool :=
  match getattr_actual_enum_cls w instance with
  | Ok c => Ok (Nat.eqb c self)
  | Raise AttributeError => Ok false
  | Raise e => Raise e
  end.

(** ** [Enum.try_value] and [try_enum] *)

Definition try_value (w : World) (cls : oid) (value : pyval) : result pyval :=
  do k <- enum_class w cls;
  match dict_get w (_enum_value_map_ k) value with
  | Ok s => Ok s
  | Raise KeyError | Raise (TypeError _) => Ok value
  | Raise e => Raise e
  end.

(** [cls] may be any object here: one that is no enum class has no
    [_enum_value_map_]. *)
Definition try_enum (w : World) (cls : oid) (val : pyval) : result pyval :=
  match (do k <- enum_class w cls; dict_get w (_enum_value_map_ k) val) with
  | Ok s => Ok s
  | Raise KeyError | Raise (TypeError _) | Raise AttributeError => Ok val
  | Raise e => Raise e
  end.

(** ** The properties of [AuditLogAction] *)

(** [C.name] for a name bound to a plain value in the namespace of class
    [C] itself, as [attrs[key] = new_value] binds every member name; the
    table of [category] reads nothing else (no inherited name, no class
    method). *)
Definition class_attr (w : World) (cls : oid) (name : string) : result pyval :=
  do k <- enum_class w cls;
  match cls_dict k !! name with
  | Some (AValue v) => Ok v
  | _ => Raise AttributeError
  end.

Definition global (w : World) (name : string) : result oid :=
  match globals w !! name with
  | Some c => Ok c
  | None => Raise (NameError name)
  end.

(** The dict display of [category], row by row: the member of
    [AuditLogAction] and the member of [AuditLogActionCategory] it maps
    to ([None] where the source writes [None]). *)
Definition category_rows : list (string * option string) :=
  [ ("guild_update", Some "update");
    ("channel_create", Some "create");
    ("channel_update", Some "update");
    ("channel_delete", Some "delete");
    ("overwrite_create", Some "create");
    ("overwrite_update", Some "update");
    ("overwrite_delete", Some "delete");
    ("kick", None);
    ("member_prune", None);
    ("ban", None);
    ("unban", None);
    ("member_update", Some "update");
    ("member_role_update", Some "update");
    ("member_move", None);
    ("member_disconnect", None);
    ("bot_add", None);
    ("role_create", Some "create");
    ("role_update", Some "update");
    ("role_delete", Some "delete");
    ("invite_create", Some "create");
    ("invite_update", Some "update");
    ("invite_delete", Some "delete");
    ("webhook_create", Some "create");
    ("webhook_update", Some "update");
    ("webhook_delete", Some "delete");
    ("emoji_create", Some "create");
    ("emoji_update", Some "update");
    ("emoji_delete", Some "delete");
    ("message_delete", Some "delete");
    ("message_bulk_delete", Some "delete");
    ("message_pin", None);
    ("message_unpin", None);
    ("integration_create", Some "create");
    ("integration_update", Some "update");
    ("integration_delete", Some "delete") ].

Fixpoint build_lookup (w : World) (rows : list (string * option string)) (acc : pydict)
  : result pydict :=
  match rows with
  | [] => Ok acc
  | (action, cat) :: rest =>
      do a <- global w "AuditLogAction";
      do key <- class_attr w a action;
      do val <- match cat with
                | Some name => do c <- global w "AuditLogActionCategory"; class_attr w c name
                | None => Ok PNone
                end;
      do acc' <- dict_set w acc key val;
      build_lookup w rest acc'
  end.

Definition category (w : World) (self : pyval) : result pyval :=
  do lookup <- build_lookup w category_rows [];
  dict_get w lookup self.

(** [v < n] for an int [n]: only numbers are ordered against an int. *)
Definition py_lt_int (v : pyval) (n : Z) : result bool :=
  match v with
  | PInt z => Ok (Z.ltb z n)
  | PBool b => Ok (Z.ltb (Z.b2z b) n)
  | _ => Raise (TypeError "'<' not supported between these instances")
  end.

Definition target_type (w : World) (self : pyval) : result pyval :=
  match self with
  | PSym _ _ _ v =>
      do all <- lift_type_error (py_eq w v (PInt (-1)));
      if all then Ok (PStr "all") else
      do c <- py_lt_int v 10; if c then Ok (PStr "guild") else
      do c <- py_lt_int v 20; if c then Ok (PStr "channel") else
      do c <- py_lt_int v 30; if c then Ok (PStr "user") else
      do c <- py_lt_int v 40; if c then Ok (PStr "role") else
      do c <- py_lt_int v 50; if c then Ok (PStr "invite") else
      do c <- py_lt_int v 60; if c then Ok (PStr "webhook") else
      do c <- py_lt_int v 70; if c then Ok (PStr "emoji") else
      do c <- py_lt_int v 80; if c then Ok (PStr "message") else
      do c <- py_lt_int v 90; if c then Ok (PStr "integration") else
      Ok PNone
  | _ => Raise AttributeError
  end.

(** [self.category] and [self.target_type]: the properties exist on the
    records whose class had them installed. *)
Definition get_category (w : World) (self : pyval) : result pyval :=
  match self with
  | PSym _ vc _ _ =>
      if vc_category (value_cls_of w vc) then category w self else Raise AttributeError
  | _ => Raise AttributeError
  end.

Definition get_target_type (w : World) (self : pyval) : result pyval :=
  match self with
  | PSym _ vc _ _ =>
      if vc_target_type (value_cls_of w vc) then target_type w self else Raise AttributeError
  | _ => Raise AttributeError
  end.

(** ** The module [discord.enums] *)

(** The namespace of a class body: it starts with [__module__] and
    [__qualname__]. *)
Definition namespace (name : string) (body : list entry) : list entry :=
  Assign "__module__" (PStr "discord.enums")
  :: Assign "__qualname__" (PStr name) :: body.

(** [class name(base): body] at module level: the metaclass builds the
    class from the namespace, and the module binds [name] to it. *)
Definition class_stmt (name : string) (base : option string) (body : list entry) : M oid :=
  let! bases := match base with
                | None => ret []
                | Some b => let! c := read (fun w => global w b) in ret [c]
                end in
  let! cls := EnumMeta_new name bases (namespace name body) in
  let! _ := set_global name cls in
  ret cls.

Definition Enum_body : list entry :=
  [ Classmethod "try_value" CM_try_value ].

Definition ChannelType_body : list entry :=
  [ Assign "text" (PInt 0);
    Assign "private" (PInt 1);
    Assign "voice" (PInt 2);
    Assign "group" (PInt 3);
    Assign "category" (PInt 4);
    Assign "news" (PInt 5);
    Assign "store" (PInt 6);
    Assign "news_thread" (PInt 10);
    Assign "public_thread" (PInt 11);
    Assign "private_thread" (PInt 12);
    Assign "stage_voice" (PInt 13);
    Def (Def_str Fname) ].

Definition ComponentType_body : list entry :=
  [ Assign "ActionRow" (PInt 1);
    Assign "Button" (PInt 2);
    Assign "SelectMenu" (PInt 3);
    Def (Def_str Fname);
    Def (Def_int Fvalue);
    Def Def_eq ].

Definition nl : string := String (ascii_of_nat 10) EmptyString.

Definition ButtonStyle_doc : string :=
  nl +:+ "    :class:`ButtonStyle`" +:+ nl
  +:+ "    Represents the Style for a :class:`discord.Button`" +:+ nl +:+ nl
  +:+ "    .. note ::" +:+ nl
  +:+ "        For more information about the Button-Styles, visit the `Discord-API Documentation <https://discord.com/developers/docs/interactions/message-components#buttons-button-styles>`_."
  +:+ nl +:+ nl +:+ "    ".

Definition ButtonStyle_body : list entry :=
  [ Assign "__doc__" (PStr ButtonStyle_doc);
    Assign "blurple" (PInt 1);
    Assign "Primary" (PInt 1);
    Assign "grey" (PInt 2);
    Assign "gray" (PInt 2);
    Assign "Secondary" (PInt 2);
    Assign "green" (PInt 3);
    Assign "Success" (PInt 3);
    Assign "red" (PInt 4);
    Assign "Danger" (PInt 4);
    Assign "url" (PInt 5);
    Assign "link" (PInt 5);
    Assign "grey_url" (PInt 5);
    Assign "Link_Button" (PInt 5);
    Classmethod "from_value" CM_from_value;
    Def (Def_str Fname);
    Def (Def_int Fvalue) ].

Definition ButtonColor_doc : string :=
  nl +:+ "    :class:`ButtonColor`" +:+ nl +:+ nl
  +:+ "    .. note ::" +:+ nl
  +:+ "        This is just an Aliase to :class:`ButtonStyle`." +:+ nl +:+ "    ".

Definition ButtonColor_body : list entry :=
  [ Assign "__doc__" (PStr ButtonColor_doc) ].

Definition AuditLogActionCategory_body : list entry :=
  [ Assign "create" (PInt 1);
    Assign "delete" (PInt 2);
    Assign "update" (PInt 3) ].

Definition AuditLogAction_body : list entry :=
  [ Assign "guild_update" (PInt 1);
    Assign "channel_create" (PInt 10);
    Assign "channel_update" (PInt 11);
    Assign "channel_delete" (PInt 12);
    Assign "overwrite_create" (PInt 13);
    Assign "overwrite_update" (PInt 14);
    Assign "overwrite_delete" (PInt 15);
    Assign "kick" (PInt 20);
    Assign "member_prune" (PInt 21);
    Assign "ban" (PInt 22);
    Assign "unban" (PInt 23);
    Assign "member_update" (PInt 24);
    Assign "member_role_update" (PInt 25);
    Assign "member_move" (PInt 26);
    Assign "member_disconnect" (PInt 27);
    Assign "bot_add" (PInt 28);
    Assign "role_create" (PInt 30);
    Assign "role_update" (PInt 31);
    Assign "role_delete" (PInt 32);
    Assign "invite_create" (PInt 40);
    Assign "invite_update" (PInt 41);
    Assign "invite_delete" (PInt 42);
    Assign "webhook_create" (PInt 50);
    Assign "webhook_update" (PInt 51);
    Assign "webhook_delete" (PInt 52);
    Assign "emoji_create" (PInt 60);
    Assign "emoji_update" (PInt 61);
    Assign "emoji_delete" (PInt 62);
    Assign "message_delete" (PInt 72);
    Assign "message_bulk_delete" (PInt 73);
    Assign "message_pin" (PInt 74);
    Assign "message_unpin" (PInt 75);
    Assign "integration_create" (PInt 80);
    Assign "integration_update" (PInt 81);
    Assign "integration_delete" (PInt 82);
    Def Prop_category;
    Def Prop_target_type ].

(** The class statements of the module that the properties below are
    about, in source order; the statements left out only allocate
    further objects. *)
Record Module : Type := {
  Enum : oid;
  ChannelType : oid;
  ComponentType : oid;
  ButtonStyle : oid;
  ButtonColor : oid;
  AuditLogActionCategory : oid;
  AuditLogAction : oid
}.

Definition enums_py : M Module :=
  let! enum := class_stmt "Enum" None Enum_body in
  let! channel_type := class_stmt "ChannelType" (Some "Enum") ChannelType_body in
  let! component_type := class_stmt "ComponentType" (Some "Enum") ComponentType_body in
  let! button_style := class_stmt "ButtonStyle" (Some "Enum") ButtonStyle_body in
  let! button_color := class_stmt "ButtonColor" (Some "ButtonStyle") ButtonColor_body in
  let! category := class_stmt "AuditLogActionCategory" (Some "Enum") AuditLogActionCategory_body in
  let! action := class_stmt "AuditLogAction" (Some "Enum") AuditLogAction_body in
  ret {| Enum := enum; ChannelType := channel_type; ComponentType := component_type;
         ButtonStyle := button_style; ButtonColor := button_color;
         AuditLogActionCategory := category; AuditLogAction := action |}.

(** The store once the module is imported. *)
Definition loaded : World := snd (enums_py empty_world).

(** The classes the module binds (importing it raises nothing). *)
Definition discord_enums : Module :=
  match fst (enums_py empty_world) with
  | Ok m => m
  | Raise _ => {| Enum := 0; ChannelType := 0; ComponentType := 0; ButtonStyle := 0;
                  ButtonColor := 0; AuditLogActionCategory := 0; AuditLogAction := 0 |}%nat
  end.

(** The stores in which the class statements of [ButtonStyle] and
    [ChannelType] run. *)
Definition before_ButtonStyle : World :=
  snd ((let! _ := class_stmt "Enum" None Enum_body in
        let! _ := class_stmt "ChannelType" (Some "Enum") ChannelType_body in
        class_stmt "ComponentType" (Some "Enum") ComponentType_body) empty_world).

Definition before_ChannelType : World :=
  snd (class_stmt "Enum" None Enum_body empty_world).

(** A symbol set declared with the entries [text=0, private=1, voice=2],
    and the store after its definition. *)
Definition three_kinds : list entry :=
  [ Assign "text" (PInt 0); Assign "private" (PInt 1); Assign "voice" (PInt 2) ].

Definition three_kinds_world : World :=
  snd (EnumMeta_new "Kind" [] three_kinds empty_world).

Definition three_kinds_cls : oid :=
  match fst (EnumMeta_new "Kind" [] three_kinds empty_world) with
  | Ok c => c
  | Raise _ => 0%nat
  end.

(** ** The declaration a symbol set is built from *)

Definition starts_with_underscore (key : string) : bool :=
  match key with
  | String c _ => Ascii.eqb c "_"%char
  | EmptyString => false
  end.

(** The (name, raw value) pairs a class body declares: plain
    assignments to names without the reserved prefix. *)
Definition member_of (e : entry) : option (string * pyval) :=
  match e with
  | Assign k v => if starts_with_underscore k then None else Some (k, v)
  | _ => None
  end.

Definition declared (attrs : list entry) : list (string * pyval) :=
  omap member_of attrs.

(** The dictionary key a raw value stands for: two raw values are the
    same key exactly when this agrees ([1] and [True] are one key). *)
Definition hash_of (v : pyval) : option hcode :=
  match py_hash v with Ok h => Some h | Raise _ => None end.

Definition raw_key (m : string * pyval) : option hcode := hash_of m.2.

(** The declared pairs whose raw value was not declared before them. *)
Definition add_decl (acc : list (string * pyval)) (m : string * pyval)
  : list (string * pyval) :=
  if decide (raw_key m ∈ raw_key <$> acc) then acc else (acc ++ [m]).

Definition canonical (ms : list (string * pyval)) : list (string * pyval) :=
  foldl add_decl [] ms.

(** The [i]-th record made by a class whose records are numbered from [lo]. *)
Definition symbol_at (lo vc : oid) (i : nat) (m : string * pyval) : pyval :=
  PSym (lo + i) vc m.1 m.2.

(** A well-formed declaration: the names are those of a dict (no
    repetition, none empty), and the raw values are scalars. *)
Definition attrs_ok (attrs : list entry) : bool :=
  bool_decide (NoDup (entry_key <$> attrs))
  && forallb (fun e => negb (String.eqb (entry_key e) "")) attrs
  && forallb (fun m : string * pyval => is_scalar m.2) (declared attrs).

(** [cls] is the symbol set declared by [attrs], as seen in store [w]:
    [EnumMeta.__new__] made it from [attrs] at some point, and [w] still
    holds the class and its namedtuple class as they were made. *)
Definition symbol_set (w : World) (cls : oid) (attrs : list entry) : Prop :=
  attrs_ok attrs = true /\
  exists name bases w0 w1,
    EnumMeta_new name bases attrs w0 = (Ok cls, w1)
    /\ enum_classes w !! cls = enum_classes w1 !! cls
    /\ value_classes w !! next_oid w0 = value_classes w1 !! next_oid w0.

(** The value map of a symbol set: one entry per canonical pair. *)
Definition value_entry (lo vc : oid) (i : nat) (m : string * pyval) : pyval * pyval :=
  (m.2, symbol_at lo vc i m).

(** A dictionary all of whose keys are scalars. *)
Definition scalar_keys (d : pydict) : Prop := Forall (fun kv => is_scalar kv.1 = true) d.

(** What [EnumMeta.__new__] leaves in the class made from [attrs], when
    the namedtuple class is [vc] (the records follow it in the store). *)
Record describes (vc : oid) (attrs : list entry) (k : EnumClass) : Prop := {
  d_value_map :
    _enum_value_map_ k = imap (value_entry (S vc) vc) (canonical (declared attrs));
  d_member_names : _enum_member_names_ k = (canonical (declared attrs)).*1;
  d_member_map : forall n r, (n, r) ∈ declared attrs ->
      exists i m, canonical (declared attrs) !! i = Some m
                  /\ raw_key m = hash_of r
                  /\ _enum_member_map_ k !! n = Some (symbol_at (S vc) vc i m);
  d_member_map_none : forall n, n ∉ (declared attrs).*1 -> _enum_member_map_ k !! n = None
}.

(** [v] is, as a dictionary key, one of the declared raw values. *)
Definition declares (attrs : list entry) (v : pyval) : Prop :=
  exists n r, (n, r) ∈ declared attrs /\ hash_of r = hash_of v.

(** What holds of the locals after the entries [done] have been looked
    at, for a class whose namedtuple class is [vc] and whose records are
    numbered from [lo]; [w0] is the store when the loop started. *)
Record loop_inv (vc lo : oid) (w0 : World) (done : list entry)
    (st : NewState) (w : World) : Prop := {
  inv_vm : value_mapping st = imap (value_entry lo vc) (canonical (declared done));
  inv_names : member_names st = (canonical (declared done)).*1;
  inv_next : next_oid w = (lo + length (canonical (declared done)))%nat;
  inv_mm : forall n r, (n, r) ∈ declared done ->
      exists i m, canonical (declared done) !! i = Some m
                  /\ raw_key m = hash_of r
                  /\ member_mapping st !! n = Some (symbol_at lo vc i m);
  inv_mm_none : forall n, n ∉ (declared done).*1 -> member_mapping st !! n = None;
  inv_classes : enum_classes w = enum_classes w0;
  inv_globals : globals w = globals w0;
  inv_vcs : forall j, j <> vc -> value_classes w !! j = value_classes w0 !! j;
  inv_vc : is_Some (value_classes w !! vc)
}.

(** [s] ends with [suffix]. *)
Fixpoint ends_with (suffix s : string) : bool :=
  String.eqb suffix s
  || match s with
     | String _ s' => ends_with suffix s'
     | EmptyString => false
     end.

(** The members of [AuditLogAction] that [category] maps to [None]. *)
Definition uncategorised : list string :=
  [ "kick"; "member_prune"; "ban"; "unban"; "member_move"; "member_disconnect";
    "bot_add"; "message_pin"; "message_unpin" ].

(** The definitions of a class body, in order. *)
Definition defs (attrs : list entry) : list descr :=
  omap (fun e => match e with Def d => Some d | _ => None end) attrs.

(** The namedtuple class as [_create_value_cls name] returns it. *)
Definition value_cls_made (name : string) : ValueCls :=
  {| vc_name := name; vc_str := None; vc_repr := None; vc_int := None;
     vc_eq := false; vc_category := false; vc_target_type := false;
     _actual_enum_cls_ := None |}.

(** The namedtuple class once the definitions [ds] have been set on it. *)
Definition install (c : ValueCls) (ds : list descr) : ValueCls :=
  foldl (fun c d => vc_setattr d c) c ds.

(** What holds of the namespace and of the namedtuple class after the
    entries [done] of [attrs] have been looked at. *)
Record ns_inv (name : string) (vc : oid) (attrs done : list entry)
    (st : NewState) (w : World) : Prop := {
  ns_members : forall n s, member_mapping st !! n = Some s ->
                           attrs_now st !! n = Some (AValue s);
  ns_member_keys : forall n, is_Some (member_mapping st !! n) -> n ∈ entry_key <$> done;
  ns_defs_gone : forall d, Def d ∈ done -> attrs_now st !! descr_name d = None;
  ns_kept : forall e, e ∈ done -> member_of e = None -> (forall d, e <> Def d) ->
                      attrs_now st !! entry_key e = Some (entry_attr e);
  ns_untouched : forall n, n ∉ entry_key <$> done ->
                           attrs_now st !! n = attrs_init attrs !! n;
  ns_value_cls : value_classes w !! vc = Some (install (value_cls_made name) (defs done))
}.

(** The store in which the class statement of [ComponentType] runs. *)
Definition before_ComponentType : World :=
  snd ((let! _ := class_stmt "Enum" None Enum_body in
        class_stmt "ChannelType" (Some "Enum") ChannelType_body) empty_world).

(** ** [GuildScheduledEvent.edit]: the checks on [type], [name], [description] and [status]

    The keyword arguments [fields] are a dict from names to objects.
    What the checks raise: *)
Inductive edit_exn : Type :=
| EntityTypeValueError   (* ValueError('entity_type must be a valid EventEntityType.') *)
| LengthValueError (field : string) (hi got : Z)
    (* ValueError(f'The length of the {field} must be between 1 and {hi}
       characters long; got {got}.') *)
| LenTypeError      (* len() of an object that has none *)
| StatusTypeError   (* 'The status must be of type discord.EventStatus, not ...' *)
| StatusValueError (msg : string)
| StatusAttributeError   (* an attribute read on an object without it *)
| EnumError (e : exn).

(** The ['type'] argument, when given:
    [if not isinstance(entity_type, EventEntityType):
         entity_type = try_enum(EventEntityType, entity_type)
         if not isinstance(entity_type, EventEntityType): raise ValueError(...)] *)
Definition check_entity_type (w : World) (event_entity_type : oid) (entity_type : pyval)
  : res edit_exn pyval :=
  match EnumMeta_instancecheck w event_entity_type entity_type with
  | Raise e => Raise (EnumError e)
  | Ok true => Ok entity_type
  | Ok false =>
      match try_enum w event_entity_type entity_type with
      | Raise e => Raise (EnumError e)
      | Ok entity_type' =>
          match EnumMeta_instancecheck w event_entity_type entity_type' with
          | Raise e => Raise (EnumError e)
          | Ok true => Ok entity_type'
          | Ok false => Raise EntityTypeValueError
          end
      end
  end.

(** [len(x)]: a str, a list and a record (a tuple of two fields) have one. *)
Definition py_len (x : pyval) : option Z :=
  match x with
  | PStr s => Some (Z.of_nat (String.length s))
  | PList l => Some (Z.of_nat (length l))
  | PSym _ _ _ _ => Some 2
  | _ => None
  end.

(** [try: x = fields[key]  except KeyError: pass
     else: if 1 > len(x) > hi: raise ValueError(...)] *)
Definition length_check (fields : gmap string pyval) (key : string) (hi : Z)
  : res edit_exn unit :=
  match fields !! key with
  | None => Ok tt
  | Some x =>
      match py_len x with
      | None => Raise LenTypeError
      | Some n =>
          if Z.gtb 1 n && Z.gtb n hi then Raise (LengthValueError key hi n) else Ok tt
      end
  end.

Definition check_name (fields : gmap string pyval) : res edit_exn unit :=
  length_check fields "name" 100.

Definition check_description (fields : gmap string pyval) : res edit_exn unit :=
  length_check fields "description" 1000.

(** The block on ['status'].  [EventStatus] and the four properties of
    its records are defined outside the files at hand: the class comes
    as [event_status]; reading a property and testing its truth comes as
    a function that may raise (an object without the attribute). *)
Definition check_status
    (canceled completed active scheduled : pyval -> res edit_exn bool)
    (w : World) (event_status : oid) (current_status : pyval)
    (fields : gmap string pyval) : res edit_exn (gmap string pyval) :=
  match fields !! "status" with
  | None => Ok fields
  | Some status =>
      match EnumMeta_instancecheck w event_status status with
      | Raise e => Raise (EnumError e)
      | Ok false => Raise StatusTypeError
      | Ok true =>
          do c1 <- (do a <- canceled current_status;
                    if a then Ok true else completed current_status);
          if c1 then
            Raise (StatusValueError
                     "The status of an completed or canceled event could not be changed.")
          else
          do c2 <- (do a <- active current_status;
                    if a then (do b <- completed status; Ok (negb b)) else Ok false);
          if c2 then
            Raise (StatusValueError
                     "The status of an active event could only be changed to completed.")
          else
          do c3 <- (do ab <- (do a <- scheduled current_status;
                              if a then (do b <- active status; Ok (negb b)) else Ok false);
                    if ab then Ok true else canceled status);
          if c3 then
            Raise (StatusValueError
                     "The status of an scheduled event could only be changed to active or canceled.")
          else
            match sym_value status with
            | Some v => Ok (<["status" := v]> fields)
            | None => Raise StatusAttributeError
            end
      end
  end.

(** A sample of such a property: the record is the one called [n]; an
    object that is no record has no such attribute. *)
Definition is_named (n : string) (s : pyval) : res edit_exn bool :=
  match sym_name s with
  | Some m => Ok (String.eqb m n)
  | None => Raise StatusAttributeError
  end.

(** ** Facts about the pure part *)

Lemma canonical_snoc ms m : canonical (ms ++ [m]) = add_decl (canonical ms) m.
Proof. unfold canonical. by rewrite foldl_snoc. Qed.

Lemma canonical_keys ms h :
  h ∈ raw_key <$> canonical ms <-> h ∈ raw_key <$> ms.
Proof.
  induction ms as [|m ms IH] using rev_ind; [done|].
  rewrite canonical_snoc, fmap_app, elem_of_app. unfold add_decl.
  case_decide as Hin.
  - rewrite IH. simpl. rewrite list_elem_of_singleton.
    split; [tauto|]. intros [? | ->]; [done|]. by apply IH.
  - rewrite fmap_app, elem_of_app. by rewrite IH.
Qed.

Lemma canonical_NoDup ms : NoDup (raw_key <$> canonical ms).
Proof.
  induction ms as [|m ms IH] using rev_ind; [constructor|].
  rewrite canonical_snoc. unfold add_decl. case_decide as Hin; [done|].
  rewrite fmap_app. apply NoDup_app. split_and!; [done| |by apply NoDup_singleton].
  intros h Hh. simpl. rewrite list_elem_of_singleton. by intros ->.
Qed.

Lemma canonical_sublist ms : canonical ms `sublist_of` ms.
Proof.
  induction ms as [|m ms IH] using rev_ind; [done|].
  rewrite canonical_snoc. unfold add_decl. case_decide.
  - by apply sublist_inserts_r.
  - by apply sublist_app.
Qed.

(** Each canonical pair is the first declared pair with its raw value. *)
Lemma canonical_first ms m :
  m ∈ canonical ms ->
  exists pre post, ms = (pre ++ m :: post) /\ raw_key m ∉ raw_key <$> pre.
Proof.
  induction ms as [|x ms IH] using rev_ind; [by intros ?%elem_of_nil|].
  rewrite canonical_snoc. unfold add_decl. case_decide as Hin.
  - intros (pre & post & -> & Hpre)%IH.
    exists pre, (post ++ [x]). by rewrite <- app_assoc.
  - rewrite elem_of_app, list_elem_of_singleton. intros [Hm | ->].
    + destruct (IH Hm) as (pre & post & -> & Hpre).
      exists pre, (post ++ [x]). by rewrite <- app_assoc.
    + exists ms, []. split; [done|]. by rewrite <- canonical_keys.
Qed.

(** As many canonical pairs as distinct raw values. *)
Lemma canonical_length ms :
  length (canonical ms) = length (remove_dups (raw_key <$> ms)).
Proof.
  rewrite <- (length_fmap raw_key (canonical ms)).
  apply Permutation_length, NoDup_Permutation.
  - apply canonical_NoDup.
  - apply NoDup_remove_dups.
  - intros h. by rewrite canonical_keys, elem_of_remove_dups.
Qed.

(** ** Dictionaries keyed by scalars *)

Lemma py_hash_sym_inv i vc n x h :
  py_hash (PSym i vc n x) = Ok h -> exists h', h = HTuple n h'.
Proof. simpl. destruct (py_hash x); simpl; [|done]. intros [= <-]. eauto. Qed.

(** A scalar key matches exactly the keys with its hash. *)
Lemma key_matches_scalar w h key k :
  is_scalar k = true -> py_hash key = Ok h ->
  key_matches w h key k = Ok (bool_decide (hash_of k = Some h)).
Proof.
  intros Hk Hh. unfold key_matches, hash_of.
  destruct k; try discriminate Hk; simpl;
    (case_bool_decide as E;
     [ subst h; rewrite bool_decide_true by done
     | rewrite bool_decide_false by congruence; done ]);
    destruct key; simpl in Hh; try discriminate Hh;
    try (apply py_hash_sym_inv in Hh as [? [=]]);
    try (injection Hh as Hh); simpl; try done.
  - destruct b, b0; simpl in *; done.
  - destruct b; simpl in *; subst; done.
  - subst. destruct b; simpl; done.
  - subst. by rewrite Z.eqb_refl.
  - subst. by rewrite String.eqb_refl.
  - subst. by rewrite Nat.eqb_refl.
Qed.

Lemma dict_find_skip w h key d1 d2 :
  scalar_keys d1 -> py_hash key = Ok h ->
  (forall kv, kv ∈ d1 -> hash_of kv.1 <> Some h) ->
  dict_find w h key (d1 ++ d2) = dict_find w h key d2.
Proof.
  intros Hs Hh. induction Hs as [|[k x] d1 Hk Hs IH]; [done|]. intros Hne. simpl.
  rewrite (key_matches_scalar _ _ _ _ Hk Hh). simpl.
  rewrite bool_decide_false by (apply (Hne (k, x)); left).
  apply IH. intros kv ?. apply Hne. by right.
Qed.

Lemma dict_find_here w h key k x d :
  is_scalar k = true -> py_hash key = Ok h -> hash_of k = Some h ->
  dict_find w h key ((k, x) :: d) = Ok (Some x).
Proof.
  intros Hk Hh Hkh. simpl. rewrite (key_matches_scalar _ _ _ _ Hk Hh). simpl.
  by rewrite bool_decide_true.
Qed.

Lemma dict_find_absent w h key d :
  scalar_keys d -> py_hash key = Ok h ->
  (forall kv, kv ∈ d -> hash_of kv.1 <> Some h) ->
  dict_find w h key d = Ok None.
Proof.
  intros Hs Hh Hne. rewrite <- (app_nil_r d). by rewrite dict_find_skip.
Qed.

Lemma dict_replace_absent w h key x d :
  scalar_keys d -> py_hash key = Ok h ->
  (forall kv, kv ∈ d -> hash_of kv.1 <> Some h) ->
  dict_replace w h key x d = Ok None.
Proof.
  intros Hs Hh. induction Hs as [|[k y] d Hk Hs IH]; [done|]. intros Hne. simpl.
  rewrite (key_matches_scalar _ _ _ _ Hk Hh). simpl.
  rewrite bool_decide_false by (apply (Hne (k, y)); left).
  rewrite IH; [done|]. intros kv ?. apply Hne. by right.
Qed.

(** [d[key]] raises nothing but [KeyError] and [TypeError]. *)
Lemma dict_get_raises w d key e :
  dict_get w d key = Raise e -> e = KeyError \/ exists msg, e = TypeError msg.
Proof.
  unfold dict_get. destruct (py_hash key) as [h|msg]; simpl; [|intros [= <-]; eauto].
  destruct (dict_find w h key d) as [[x|]|msg]; simpl; [done| |]; intros [= <-]; eauto.
Qed.

Lemma scalar_hash v : is_scalar v = true -> exists h, py_hash v = Ok h.
Proof. destruct v; try discriminate; simpl; eauto. Qed.

Lemma value_entries_scalar lo vc canon :
  Forall (fun m : string * pyval => is_scalar m.2 = true) canon ->
  scalar_keys (imap (value_entry lo vc) canon).
Proof.
  intros Hs. apply Forall_forall. intros kv (j & m & -> & Hm)%elem_of_lookup_imap.
  simpl. by eapply (Forall_lookup_1 _ _ _ _ Hs).
Qed.

Lemma dict_find_value_entries w lo vc canon v h i m :
  Forall (fun m : string * pyval => is_scalar m.2 = true) canon ->
  NoDup (raw_key <$> canon) ->
  py_hash v = Ok h -> canon !! i = Some m -> raw_key m = Some h ->
  dict_find w h v (imap (value_entry lo vc) canon) = Ok (Some (symbol_at lo vc i m)).
Proof.
  intros Hs Hnd Hh Hi Hm.
  rewrite <- (take_drop_middle _ _ _ Hi), imap_app.
  assert (Hlen : length (take i canon) = i).
  { apply length_take_le. apply lookup_lt_Some in Hi. lia. }
  rewrite dict_find_skip; [| |done|].
  - rewrite imap_cons, Hlen, Nat.add_0_r. unfold value_entry at 1.
    apply dict_find_here; [|done|done].
    by eapply (Forall_lookup_1 _ _ _ _ Hs).
  - apply value_entries_scalar. by apply Forall_take.
  - intros kv (j & m' & -> & Hj)%elem_of_lookup_imap. simpl.
    apply lookup_take_Some in Hj as [Hj Hlt]. intros Hm'.
    assert (j = i); [|lia].
    eapply (NoDup_lookup _ _ _ _ Hnd); rewrite list_lookup_fmap.
    + by rewrite Hj.
    + rewrite Hi. simpl. unfold raw_key in *. congruence.
Qed.

Lemma dict_get_value_entries w lo vc canon v h i m :
  Forall (fun m : string * pyval => is_scalar m.2 = true) canon ->
  NoDup (raw_key <$> canon) ->
  py_hash v = Ok h -> canon !! i = Some m -> raw_key m = Some h ->
  dict_get w (imap (value_entry lo vc) canon) v = Ok (symbol_at lo vc i m).
Proof.
  intros Hs Hnd Hh Hi Hm. unfold dict_get. rewrite Hh. simpl.
  by erewrite dict_find_value_entries.
Qed.

Lemma value_entries_absent lo vc canon h :
  Some h ∉ raw_key <$> canon ->
  forall kv, kv ∈ imap (value_entry lo vc) canon -> hash_of kv.1 <> Some h.
Proof.
  intros Hnot kv (j & m & -> & Hj)%elem_of_lookup_imap Hm. simpl in Hm.
  apply Hnot. apply list_elem_of_fmap. exists m. split; [done|].
  by eapply list_elem_of_lookup_2.
Qed.

Lemma dict_get_value_entries_absent w lo vc canon v h :
  Forall (fun m : string * pyval => is_scalar m.2 = true) canon ->
  py_hash v = Ok h -> Some h ∉ raw_key <$> canon ->
  dict_get w (imap (value_entry lo vc) canon) v = Raise KeyError.
Proof.
  intros Hs Hh Hnot. unfold dict_get. rewrite Hh. simpl.
  rewrite dict_find_absent; [done| |done|].
  - by apply value_entries_scalar.
  - by apply value_entries_absent.
Qed.

Lemma dict_set_value_entries_absent w lo vc canon v h x :
  Forall (fun m : string * pyval => is_scalar m.2 = true) canon ->
  py_hash v = Ok h -> Some h ∉ raw_key <$> canon ->
  dict_set w (imap (value_entry lo vc) canon) v x
  = Ok (imap (value_entry lo vc) canon ++ [(v, x)]).
Proof.
  intros Hs Hh Hnot. unfold dict_set. rewrite Hh. simpl.
  rewrite dict_replace_absent; [done| |done|].
  - by apply value_entries_scalar.
  - by apply value_entries_absent.
Qed.

(** ** The loop of [EnumMeta.__new__] *)

Lemma declared_snoc done e :
  declared (done ++ [e]) = declared done ++ option_list (member_of e).
Proof. unfold declared. rewrite omap_app. simpl. by destruct (member_of e). Qed.

Lemma declared_names done n r : (n, r) ∈ declared done -> n ∈ entry_key <$> done.
Proof.
  unfold declared. intros (e & He & Hm)%list_elem_of_omap.
  apply list_elem_of_fmap. exists e. split; [|done].
  destruct e as [k v| |]; simpl in Hm; try done.
  destruct (starts_with_underscore k); by inversion Hm.
Qed.

Lemma loop_inv_skip vc lo w0 done e st w w' :
  loop_inv vc lo w0 done st w ->
  member_of e = None ->
  next_oid w' = next_oid w -> enum_classes w' = enum_classes w ->
  globals w' = globals w ->
  (forall j, j <> vc -> value_classes w' !! j = value_classes w !! j) ->
  is_Some (value_classes w' !! vc) ->
  forall st', value_mapping st' = value_mapping st ->
              member_mapping st' = member_mapping st ->
              member_names st' = member_names st ->
  loop_inv vc lo w0 (done ++ [e]) st' w'.
Proof.
  intros [] He Hn Hc Hg Hv Hvc st' E1 E2 E3.
  assert (Hd : declared (done ++ [e]) = declared done).
  { by rewrite declared_snoc, He, app_nil_r. }
  split; rewrite ?Hd, ?E1, ?E2, ?E3; try done; try congruence.
  intros j Hj. rewrite Hv by done. auto.
Qed.

Lemma canonical_elem ms m : m ∈ canonical ms -> m ∈ ms.
Proof.
  intros (pre & post & -> & _)%canonical_first.
  apply elem_of_app. right. left.
Qed.

Lemma new_step_inv vc lo w0 done e st w :
  loop_inv vc lo w0 done st w ->
  entry_key e <> "" ->
  entry_key e ∉ entry_key <$> done ->
  Forall (fun m : string * pyval => is_scalar m.2 = true) (declared (done ++ [e])) ->
  exists st' w', new_step vc st e w = (Ok st', w')
                 /\ loop_inv vc lo w0 (done ++ [e]) st' w'.
Proof.
  intros Hinv Hkey Hfresh Hsc.
  destruct e as [k v|k m|d].
  - (* key = value *)
    simpl in Hkey, Hfresh. destruct k as [|c k']; [done|].
    unfold new_step, bind, read, ret. simpl.
    rewrite andb_true_r.
    destruct (Ascii.eqb c "_"%char) eqn:Hc.
    { eexists _, _. split; [done|].
      eapply loop_inv_skip; eauto.
      - simpl. by rewrite Hc.
      - by destruct Hinv. }
    assert (Hmem : member_of (Assign (String c k') v) = Some (String c k', v)).
    { simpl. by rewrite Hc. }
    set (key := String c k') in *.
    rewrite declared_snoc, Hmem in Hsc. simpl in Hsc.
    apply Forall_app in Hsc as [Hsd Hsv]. inversion Hsv as [|? ? Hv _]; subst.
    simpl in Hv.
    destruct (scalar_hash _ Hv) as [h Hh].
    assert (Hcs : Forall (fun m : string * pyval => is_scalar m.2 = true)
                    (canonical (declared done))).
    { apply Forall_forall. intros m Hm.
      eapply (proj1 (Forall_forall _ _) Hsd). by apply canonical_elem. }
    destruct Hinv as [Hvm Hnames Hnext Hmm Hmmn Hcl Hgl Hvcs Hvc].
    rewrite Hvm.
    assert (Hnew : key ∉ (declared done).*1).
    { intros ([n r] & Hx & Hin)%list_elem_of_fmap. simpl in Hx. subst n.
      apply Hfresh. by eapply declared_names. }
    assert (Hkh : raw_key (key, v) = Some h).
    { unfold raw_key, hash_of. simpl. by rewrite Hh. }
    destruct (decide (Some h ∈ raw_key <$> canonical (declared done))) as [Hin|Hnin].
    + (* the raw value is known: an alias *)
      pose proof Hin as Hin'.
      apply list_elem_of_fmap in Hin' as (m & Hm & Hmin).
      apply list_elem_of_lookup in Hmin as [i Hi].
      erewrite dict_get_value_entries; eauto using canonical_NoDup.
      eexists _, _. split; [done|].
      assert (Hcanon : canonical (declared (done ++ [Assign key v]))
                       = canonical (declared done)).
      { rewrite declared_snoc, Hmem. simpl. rewrite canonical_snoc. unfold add_decl.
        rewrite decide_True; [done|]. by rewrite Hkh. }
      split; simpl; rewrite ?Hcanon; try done.
      * intros n r. rewrite declared_snoc, Hmem. simpl.
        rewrite elem_of_app, list_elem_of_singleton. intros [Hnr | [= -> ->]].
        -- destruct (Hmm _ _ Hnr) as (j & m' & ? & ? & ?). exists j, m'.
           split_and!; try done. rewrite lookup_insert_ne; [done|].
           intros <-. apply Hnew. apply list_elem_of_fmap. by exists (key, r).
        -- exists i, m. rewrite lookup_insert_eq. split_and!; try done.
           unfold hash_of. by rewrite Hh.
      * intros n. rewrite declared_snoc, Hmem, fmap_app, not_elem_of_app. simpl.
        rewrite list_elem_of_singleton. intros [? ?].
        rewrite lookup_insert_ne by done. auto.
    + (* a new raw value: a new record *)
      erewrite dict_get_value_entries_absent by eauto.
      unfold bind, alloc, read, ret. simpl.
      erewrite dict_set_value_entries_absent by eauto.
      eexists _, _. split; [done|].
      assert (Hcanon : canonical (declared (done ++ [Assign key v]))
                       = canonical (declared done) ++ [(key, v)]).
      { rewrite declared_snoc, Hmem. simpl. rewrite canonical_snoc. unfold add_decl.
        rewrite decide_False; [done|]. by rewrite Hkh. }
      split; simpl; rewrite ?Hcanon; try done.
      * rewrite imap_app. simpl. unfold value_entry at 3, symbol_at. simpl.
        by rewrite Hnext, Nat.add_0_r.
      * by rewrite fmap_app, Hnames.
      * rewrite length_app, Hnext. simpl. lia.
      * intros n r. rewrite declared_snoc, Hmem. simpl.
        rewrite elem_of_app, list_elem_of_singleton. intros [Hnr | [= -> ->]].
        -- destruct (Hmm _ _ Hnr) as (j & m' & ? & ? & ?). exists j, m'.
           split_and!; try done; [by apply lookup_app_l_Some|].
           rewrite lookup_insert_ne; [done|].
           intros <-. apply Hnew. apply list_elem_of_fmap. by exists (key, r).
        -- exists (length (canonical (declared done))), (key, v).
           rewrite lookup_insert_eq. split_and!.
           ++ by rewrite list_lookup_middle.
           ++ done.
           ++ unfold symbol_at. simpl. by rewrite Hnext.
      * intros n. rewrite declared_snoc, Hmem, fmap_app, not_elem_of_app. simpl.
        rewrite list_elem_of_singleton. intros [? ?].
        rewrite lookup_insert_ne by done. auto.
  - (* a class method passes through *)
    simpl in Hkey. destruct k as [|c k']; [done|].
    unfold new_step, bind, read, ret. simpl. rewrite andb_false_r.
    eexists _, _. split; [done|].
    eapply loop_inv_skip; eauto. by destruct Hinv.
  - (* a descriptor goes to the namedtuple class *)
    assert (Hd : exists c k', descr_name d = String c k') by (destruct d; simpl; eauto).
    destruct Hd as (c & k' & Hd).
    unfold new_step, bind, read, ret, update_value_cls, modify. simpl. rewrite Hd. simpl.
    rewrite andb_false_r.
    eexists _, _. split; [done|].
    eapply loop_inv_skip; eauto; simpl.
    + intros j Hj. by rewrite lookup_insert_ne.
    + rewrite lookup_insert_eq. eauto.
Qed.

Lemma new_loop_inv vc lo w0 items : forall done st w,
  loop_inv vc lo w0 done st w ->
  NoDup (entry_key <$> done ++ items) ->
  Forall (fun e => entry_key e <> "") items ->
  Forall (fun m : string * pyval => is_scalar m.2 = true) (declared (done ++ items)) ->
  exists st' w', new_loop vc st items w = (Ok st', w')
                 /\ loop_inv vc lo w0 (done ++ items) st' w'.
Proof.
  induction items as [|e rest IH]; intros done st w Hinv Hnd Hne Hsc.
  - rewrite app_nil_r. by exists st, w.
  - inversion Hne as [|? ? He Hrest]; subst.
    rewrite cons_middle, app_assoc in Hnd, Hsc |- *.
    destruct (new_step_inv vc lo w0 done e st w) as (st1 & w1 & Hstep & Hinv1); try done.
    + rewrite fmap_app in Hnd. apply NoDup_app in Hnd as [Hnd _].
      rewrite fmap_app in Hnd. apply NoDup_app in Hnd as (_ & Hnd & _).
      intros Hin. apply (Hnd _ Hin). simpl. left.
    + unfold declared in *. rewrite omap_app in Hsc. by apply Forall_app in Hsc as [? _].
    + destruct (IH _ _ _ Hinv1 Hnd Hrest Hsc) as (st' & w' & Hloop & Hinv').
      exists st', w'. split; [|done].
      simpl. unfold bind. by rewrite Hstep.
Qed.

Lemma attrs_ok_spec attrs :
  attrs_ok attrs = true ->
  NoDup (entry_key <$> attrs)
  /\ Forall (fun e => entry_key e <> "") attrs
  /\ Forall (fun m : string * pyval => is_scalar m.2 = true) (declared attrs).
Proof.
  unfold attrs_ok. intros [[H1 H2]%andb_prop H3]%andb_prop. split_and!.
  - by apply bool_decide_eq_true in H1.
  - apply Forall_forall. intros e He Hk.
    rewrite forallb_forall in H2. specialize (H2 e).
    rewrite <- list_elem_of_In in H2. specialize (H2 He).
    rewrite Hk in H2. done.
  - apply Forall_forall. intros m Hm.
    rewrite forallb_forall in H3. apply H3. by rewrite <- list_elem_of_In.
Qed.

(** [EnumMeta.__new__] succeeds on a well-formed declaration, and this is
    what it builds. *)
Lemma EnumMeta_new_spec name bases attrs w :
  attrs_ok attrs = true ->
  let vc := next_oid w in
  let cls := (S vc + length (canonical (declared attrs)))%nat in
  exists k vrec w',
    EnumMeta_new name bases attrs w = (Ok cls, w')
    /\ enum_classes w' = <[cls := k]> (enum_classes w)
    /\ value_classes w' !! vc = Some vrec
    /\ _actual_enum_cls_ vrec = Some cls
    /\ (forall j, j <> vc -> value_classes w' !! j = value_classes w !! j)
    /\ next_oid w' = S cls
    /\ globals w' = globals w
    /\ cls_name k = name /\ cls_bases k = bases
    /\ describes vc attrs k.
Proof.
  intros (Hnd & Hne & Hsc)%attrs_ok_spec vc cls.
  unfold EnumMeta_new, _create_value_cls, bind, alloc, set_value_cls, modify, ret.
  simpl.
  match goal with |- context [new_loop ?v ?s attrs ?w1] =>
    destruct (new_loop_inv v (S vc) w1 attrs [] s w1) as (st & w2 & Hloop & Hinv) end;
    try done.
  { split; simpl; try done.
    - by intros ? ? ?%elem_of_nil.
    - rewrite lookup_insert_eq. eauto. }
  subst vc cls. rewrite Hloop. simpl in Hinv.
  destruct Hinv as [Hvm Hnames Hnext Hmm Hmmn Hcl Hgl Hvcs Hvc]. simpl in *.
  unfold set_enum_cls, update_value_cls, modify. simpl.
  rewrite Hnext.
  eexists _, _, _. split; [done|]. simpl.
  split; [by rewrite Hcl|].
  split; [by rewrite lookup_insert_eq|].
  split; [done|].
  split.
  { intros j Hj. rewrite lookup_insert_ne by done. rewrite Hvcs by done.
    by rewrite lookup_insert_ne. }
  by split_and!.
Qed.

(** ** What a symbol set looks like in the store *)

Lemma symbol_set_inv w cls attrs :
  symbol_set w cls attrs ->
  exists k vc vrec,
    enum_classes w !! cls = Some k
    /\ describes vc attrs k
    /\ value_classes w !! vc = Some vrec
    /\ _actual_enum_cls_ vrec = Some cls
    /\ Forall (fun m : string * pyval => is_scalar m.2 = true) (declared attrs).
Proof.
  intros (Hok & name & bases & w0 & w1 & Hnew & Hcls & Hvc).
  destruct (EnumMeta_new_spec name bases attrs w0 Hok)
    as (k & vrec & w' & Hnew' & Hec & Hvrec & Hact & _ & _ & _ & _ & _ & Hd).
  rewrite Hnew in Hnew'. injection Hnew' as -> ->.
  exists k, (next_oid w0), vrec. split_and!; try done.
  - rewrite Hcls, Hec. apply lookup_insert_eq.
  - by rewrite Hvc.
  - by apply attrs_ok_spec in Hok as (_ & _ & ?).
Qed.

Lemma hash_of_Some v h : hash_of v = Some h <-> py_hash v = Ok h.
Proof. unfold hash_of. destruct (py_hash v); naive_solver. Qed.

Lemma canonical_scalars ms :
  Forall (fun m : string * pyval => is_scalar m.2 = true) ms ->
  Forall (fun m : string * pyval => is_scalar m.2 = true) (canonical ms).
Proof.
  intros Hs. apply Forall_forall. intros m Hm.
  eapply (proj1 (Forall_forall _ _) Hs). by apply canonical_elem.
Qed.

Lemma value_map_hit w vc attrs k v :
  describes vc attrs k ->
  Forall (fun m : string * pyval => is_scalar m.2 = true) (declared attrs) ->
  declares attrs v ->
  exists i m, canonical (declared attrs) !! i = Some m
              /\ raw_key m = hash_of v
              /\ dict_get w (_enum_value_map_ k) v = Ok (symbol_at (S vc) vc i m).
Proof.
  intros Hd Hs (n & r & Hin & Hrv).
  assert (Hr : is_scalar r = true) by apply (proj1 (Forall_forall _ _) Hs _ Hin).
  destruct (scalar_hash _ Hr) as [h Hh].
  assert (Hv : py_hash v = Ok h).
  { apply hash_of_Some. rewrite <- Hrv. by apply hash_of_Some. }
  assert (Hc : Some h ∈ raw_key <$> canonical (declared attrs)).
  { apply canonical_keys. apply list_elem_of_fmap. exists (n, r). split; [|done].
    unfold raw_key. simpl. symmetry. by apply hash_of_Some. }
  apply list_elem_of_fmap in Hc as (m & Hm & [i Hi]%list_elem_of_lookup).
  exists i, m. split_and!; [done| |].
  - rewrite <- Hm. symmetry. by apply hash_of_Some.
  - rewrite (d_value_map _ _ _ Hd).
    eapply dict_get_value_entries; eauto using canonical_NoDup, canonical_scalars.
Qed.

Lemma value_map_miss w vc attrs k v :
  describes vc attrs k ->
  Forall (fun m : string * pyval => is_scalar m.2 = true) (declared attrs) ->
  ~ declares attrs v ->
  dict_get w (_enum_value_map_ k) v = Raise KeyError
  \/ exists msg, dict_get w (_enum_value_map_ k) v = Raise (TypeError msg).
Proof.
  intros Hd Hs Hnot. rewrite (d_value_map _ _ _ Hd).
  destruct (py_hash v) as [h|msg] eqn:Hv.
  - left. eapply dict_get_value_entries_absent; eauto using canonical_scalars.
    intros Hc. apply (proj1 (canonical_keys _ _)) in Hc.
    apply list_elem_of_fmap in Hc as ([n r] & Hm & Hin).
    apply Hnot. exists n, r. split; [done|].
    unfold raw_key in Hm. simpl in Hm. rewrite <- Hm. symmetry. by apply hash_of_Some.
  - right. exists msg. unfold dict_get. by rewrite Hv.
Qed.

Lemma declares_dec attrs v : declares attrs v \/ ~ declares attrs v.
Proof.
  destruct (decide (hash_of v ∈ raw_key <$> declared attrs)) as [Hin|Hnin].
  - left. apply list_elem_of_fmap in Hin as ([n r] & Hm & Hin). by exists n, r.
  - right. intros (n & r & Hin & Hrv). apply Hnin.
    apply list_elem_of_fmap. exists (n, r). split; [|done]. by rewrite <- Hrv.
Qed.

(** ** Resolving raw values *)

(** [try_value] and [try_enum] return on every class and every input. *)
Lemma try_value_total w cls k v :
  enum_classes w !! cls = Some k -> exists r, try_value w cls v = Ok r.
Proof.
  intros Hk. unfold try_value, enum_class. rewrite Hk. simpl.
  destruct (dict_get w (_enum_value_map_ k) v) as [s|e] eqn:E; [eauto|].
  apply dict_get_raises in E as [->|[msg ->]]; eauto.
Qed.

Lemma try_enum_total w cls v : exists r, try_enum w cls v = Ok r.
Proof.
  unfold try_enum, enum_class.
  destruct (enum_classes w !! cls) as [k|]; simpl; [|eauto].
  destruct (dict_get w (_enum_value_map_ k) v) as [s|e] eqn:E; [eauto|].
  apply dict_get_raises in E as [->|[msg ->]]; eauto.
Qed.

(** C1. On every symbol set and every input, [Enum.try_value] and
    [try_enum] return rather than raise, and return the same thing: for
    an input that is (as a dictionary key: same hash and [==], which on
    ints, bools and strs is [==]) a declared raw value, the very record
    that calling the class returns; for any other input, unhashable ones
    included, the input itself. *)
Theorem try_resolve_never_raises w cls attrs v :
  symbol_set w cls attrs ->
  exists r,
    try_value w cls v = Ok r /\ try_enum w cls v = Ok r
    /\ (declares attrs v -> is_sym r = true /\ EnumMeta_call w cls v = Ok r)
    /\ (~ declares attrs v -> r = v).
Proof.
  intros (k & vc & vrec & Hk & Hd & _ & _ & Hs)%symbol_set_inv.
  unfold try_value, try_enum, EnumMeta_call, enum_class. rewrite Hk. simpl.
  destruct (declares_dec attrs v) as [Hyes|Hno].
  - destruct (value_map_hit w vc attrs k v Hd Hs Hyes) as (i & m & _ & _ & ->).
    eexists. split_and!; first [done | by intros []].
  - destruct (value_map_miss w vc attrs k v Hd Hs Hno) as [-> | [msg ->]];
      exists v; split_and!; first [done | by intros []].
Qed.

(** C2. Calling the class on a value that is a declared raw value
    returns a record whose [value] is that raw value (the same
    dictionary key as the input) and whose name is declared with it;
    calling it on anything else, unhashable values included, raises
    [ValueError], and nothing is returned.  So a record is returned
    exactly for the declared raw values. *)
Theorem strict_resolve_iff_declared w cls attrs v :
  symbol_set w cls attrs ->
  (declares attrs v <-> exists s, EnumMeta_call w cls v = Ok s)
  /\ (forall s, EnumMeta_call w cls v = Ok s ->
        exists id vc n r, s = PSym id vc n r /\ hash_of r = hash_of v
                          /\ (n, r) ∈ declared attrs)
  /\ (~ declares attrs v ->
        exists k, enum_classes w !! cls = Some k
                  /\ EnumMeta_call w cls v = Raise (ValueError v (cls_name k))).
Proof.
  intros (k & vc & vrec & Hk & Hd & _ & _ & Hs)%symbol_set_inv.
  unfold EnumMeta_call, enum_class. rewrite Hk. simpl.
  destruct (declares_dec attrs v) as [Hyes|Hno].
  - destruct (value_map_hit w vc attrs k v Hd Hs Hyes) as (i & m & Hi & Hm & ->).
    split_and!.
    + split; eauto.
    + intros s [= <-]. exists (S vc + i)%nat, vc, m.1, m.2. split_and!; [done|done|].
      apply canonical_elem. destruct m. by eapply list_elem_of_lookup_2.
    + done.
  - destruct (value_map_miss w vc attrs k v Hd Hs Hno) as [-> | [msg ->]];
      (split_and!; [split; [done|by intros []]|done|eauto]).
Qed.

(** ** Names, iteration and counting *)

Lemma generate_ok {A B} (f : A -> result B) xs ys :
  Forall2 (fun x y => f x = Ok y) xs ys -> generate f xs = Ok ys.
Proof. induction 1 as [|x y xs ys Hx _ IH]; simpl; [done|]. by rewrite Hx, IH. Qed.

Lemma generate_app {A B} (f : A -> result B) xs1 xs2 ys1 ys2 :
  generate f xs1 = Ok ys1 -> generate f xs2 = Ok ys2 ->
  generate f (xs1 ++ xs2) = Ok (ys1 ++ ys2).
Proof.
  revert ys1. induction xs1 as [|x xs1 IH]; intros ys1; simpl.
  - by intros [= <-].
  - destruct (f x) as [y|]; simpl; [|done].
    destruct (generate f xs1) as [ys|]; simpl; [|done].
    intros [= <-] H2. by rewrite (IH ys eq_refl H2).
Qed.

Lemma generate_rev {A B} (f : A -> result B) xs ys :
  generate f xs = Ok ys -> generate f (rev xs) = Ok (rev ys).
Proof.
  revert ys. induction xs as [|x xs IH]; intros ys; simpl.
  - by intros [= <-].
  - destruct (f x) as [y|] eqn:Hx; simpl; [|done].
    destruct (generate f xs) as [ys'|]; simpl; [|done].
    intros [= <-]. simpl. apply generate_app; [by apply IH|].
    simpl. by rewrite Hx.
Qed.

(** Under its canonical name a record is found in the member map. *)
Lemma member_map_canonical vc attrs k i m :
  describes vc attrs k ->
  canonical (declared attrs) !! i = Some m ->
  member_map_get k m.1 = Ok (symbol_at (S vc) vc i m).
Proof.
  intros Hd Hi. unfold member_map_get.
  assert (Hin : (m.1, m.2) ∈ declared attrs).
  { apply canonical_elem. destruct m. by eapply list_elem_of_lookup_2. }
  destruct (d_member_map _ _ _ Hd _ _ Hin) as (j & m' & Hj & Hm' & ->).
  assert (j = i) as ->.
  { eapply (NoDup_lookup _ _ _ _ (canonical_NoDup (declared attrs)));
      rewrite list_lookup_fmap; [by rewrite Hj|]. rewrite Hi. simpl.
    by rewrite Hm'. }
  congruence.
Qed.

Lemma iter_describes w cls k vc attrs :
  enum_classes w !! cls = Some k -> describes vc attrs k ->
  EnumMeta_iter w cls
  = Ok (imap (symbol_at (S vc) vc) (canonical (declared attrs))).
Proof.
  intros Hk Hd. unfold EnumMeta_iter, enum_class. rewrite Hk. simpl.
  apply generate_ok. rewrite (d_member_names _ _ _ Hd).
  apply Forall2_same_length_lookup. split.
  - by rewrite length_fmap, length_imap.
  - intros i n s Hn Hs. rewrite list_lookup_fmap in Hn. rewrite list_lookup_imap in Hs.
    destruct (canonical (declared attrs) !! i) as [m|] eqn:Hi; [|done].
    simpl in *. injection Hn as <-. injection Hs as <-.
    by eapply member_map_canonical.
Qed.

Lemma getitem_describes w cls k vc attrs n r :
  enum_classes w !! cls = Some k -> describes vc attrs k ->
  (n, r) ∈ declared attrs ->
  exists i m, canonical (declared attrs) !! i = Some m
              /\ raw_key m = hash_of r
              /\ EnumMeta_getitem w cls n = Ok (symbol_at (S vc) vc i m).
Proof.
  intros Hk Hd Hin. unfold EnumMeta_getitem, enum_class, member_map_get.
  rewrite Hk. simpl.
  destruct (d_member_map _ _ _ Hd _ _ Hin) as (i & m & Hi & Hm & ->). eauto.
Qed.

(** On scalars, being the same dictionary key is Python's [==]. *)
Lemma hash_of_scalar_eq a b :
  is_scalar a = true -> is_scalar b = true ->
  hash_of a = hash_of b <-> scalar_scalar_eq a b = true.
Proof.
  unfold hash_of, scalar_scalar_eq.
  destruct a as [|x|x|x|x|i oa|? ? ? ?], b as [|y|y|y|y|j ob|? ? ? ?];
    try discriminate; intros _ _; cbn [py_hash scalar_eq py_is];
    rewrite ?Z.eqb_eq, ?String.eqb_eq; try (split; congruence).
  - destruct x, y; simpl; split; congruence.
  - rewrite (Nat.eqb_sym j i).
    destruct (Nat.eqb i j) eqn:E;
      [apply Nat.eqb_eq in E|apply Nat.eqb_neq in E]; split; congruence.
Qed.

(** ** Concrete symbol sets by computation *)

(** [symbol_set w cls attrs] for concrete data: the class statement is
    re-run from the store [w0] it ran in. *)
Ltac symbol_set_by_running name bases w0 attrs :=
  split; [vm_compute; reflexivity|];
  exists name, bases, w0, (snd (EnumMeta_new name bases attrs w0));
  split_and!; vm_compute; reflexivity.

(** C3. Looking a declared name up gives a record whose raw value is the
    one the name was declared with; all names declared with one raw
    value give one and the same record (same identity), named after the
    first of them; and every record a name gives is one of the records
    iteration yields, of which there are as many as distinct raw values,
    so an alias adds none.  In [ButtonStyle], ['grey'], ['gray'] and
    ['Secondary'] give one record, named ['grey'], of raw value 2. *)
Theorem lookup_by_name_aliases :
  (forall w cls attrs, symbol_set w cls attrs ->
     (forall n r, (n, r) ∈ declared attrs ->
        exists id vc n0 r0,
          EnumMeta_getitem w cls n = Ok (PSym id vc n0 r0)
          /\ hash_of r0 = hash_of r
          /\ exists pre post, declared attrs = pre ++ (n0, r0) :: post
                              /\ hash_of r ∉ raw_key <$> pre)
     /\ (forall n1 r1 n2 r2,
           (n1, r1) ∈ declared attrs -> (n2, r2) ∈ declared attrs ->
           hash_of r1 = hash_of r2 ->
           exists s, EnumMeta_getitem w cls n1 = Ok s
                     /\ EnumMeta_getitem w cls n2 = Ok s
                     /\ py_is s s = true)
     /\ (exists syms,
           EnumMeta_iter w cls = Ok syms
           /\ length syms = length (remove_dups (raw_key <$> declared attrs))
           /\ forall n s, EnumMeta_getitem w cls n = Ok s -> s ∈ syms))
  /\ (exists grey,
        EnumMeta_getitem loaded (ButtonStyle discord_enums) "grey" = Ok grey
        /\ EnumMeta_getitem loaded (ButtonStyle discord_enums) "gray" = Ok grey
        /\ EnumMeta_getitem loaded (ButtonStyle discord_enums) "Secondary" = Ok grey
        /\ sym_name grey = Some "grey" /\ sym_value grey = Some (PInt 2)
        /\ py_is grey grey = true).
Proof.
  split.
  - intros w cls attrs (k & vc & vrec & Hk & Hd & _ & _ & Hs)%symbol_set_inv.
    split_and!.
    + intros n r Hin.
      destruct (getitem_describes w cls k vc attrs n r Hk Hd Hin)
        as (i & [n0 r0] & Hi & Hm & ->).
      exists (S vc + i)%nat, vc, n0, r0. split_and!; [done|done|].
      apply list_elem_of_lookup_2 in Hi.
      destruct (canonical_first _ _ Hi) as (pre & post & Hdecl & Hpre).
      exists pre, post. split; [done|]. by rewrite <- Hm.
    + intros n1 r1 n2 r2 H1 H2 Heq.
      destruct (getitem_describes w cls k vc attrs n1 r1 Hk Hd H1)
        as (i & m & Hi & Hm & ->).
      destruct (getitem_describes w cls k vc attrs n2 r2 Hk Hd H2)
        as (j & m' & Hj & Hm' & ->).
      assert (i = j) as ->.
      { eapply (NoDup_lookup _ _ _ _ (canonical_NoDup (declared attrs)));
          rewrite list_lookup_fmap; [by rewrite Hi|]. rewrite Hj. simpl. congruence. }
      assert (m = m') as -> by congruence.
      eexists. split_and!; [done|done|]. simpl. apply Nat.eqb_refl.
    + eexists. split_and!; [by eapply iter_describes| |].
      * by rewrite length_imap, canonical_length.
      * intros n s. unfold EnumMeta_getitem, enum_class, member_map_get.
        rewrite Hk. simpl.
        destruct (decide (n ∈ (declared attrs).*1)) as [Hin|Hnin].
        -- apply list_elem_of_fmap in Hin as ([n' r] & -> & Hin). simpl.
           destruct (d_member_map _ _ _ Hd _ _ Hin) as (i & m & Hi & _ & ->).
           intros [= <-]. apply elem_of_lookup_imap. eauto.
        -- by rewrite (d_member_map_none _ _ _ Hd _ Hnin).
  - eexists. split_and!; vm_compute; reflexivity.
Qed.

Lemma lookup_by_name_aliases_witness :
  symbol_set loaded (ButtonStyle discord_enums) (namespace "ButtonStyle" ButtonStyle_body)
  /\ exists s, EnumMeta_getitem loaded (ButtonStyle discord_enums) "red" = Ok s
               /\ EnumMeta_getitem loaded (ButtonStyle discord_enums) "Danger" = Ok s
               /\ py_is s s = true.
Proof.
  assert (H : symbol_set loaded (ButtonStyle discord_enums)
                (namespace "ButtonStyle" ButtonStyle_body)).
  { symbol_set_by_running "ButtonStyle" [Enum discord_enums] before_ButtonStyle
      (namespace "ButtonStyle" ButtonStyle_body). }
  split; [exact H|].
  apply (proj1 (proj2 (proj1 lookup_by_name_aliases loaded (ButtonStyle discord_enums)
           (namespace "ButtonStyle" ButtonStyle_body) H))
           "red" (PInt 4) "Danger" (PInt 4)).
  - vm_compute. repeat first [left | right].
  - vm_compute. repeat first [left | right].
  - reflexivity.
Defined.

(** C4. Iterating a symbol set yields its records in the order in which
    their raw values were first declared, one per distinct raw value:
    the [i]-th record carries the name and raw value of the [i]-th
    first declaration, and the records are numbered consecutively, so
    no two are the same object.  [len] is their number, the number of
    distinct raw values; alias names add nothing.  A set declared
    [text=0, private=1, voice=2] has [len] 3, resolves 1 to its
    ['private'] record and iterates as text, private, voice. *)
Theorem iteration_first_declaration_order :
  (forall w cls attrs, symbol_set w cls attrs ->
     exists syms firsts lo vc,
       EnumMeta_iter w cls = Ok syms
       /\ EnumMeta_len w cls = Ok (length syms)
       /\ length syms = length (remove_dups (raw_key <$> declared attrs))
       /\ syms = imap (symbol_at lo vc) firsts
       /\ firsts `sublist_of` declared attrs
       /\ NoDup (raw_key <$> firsts)
       /\ (forall h, h ∈ raw_key <$> declared attrs -> h ∈ raw_key <$> firsts)
       /\ (forall m, m ∈ firsts ->
             exists pre post, declared attrs = pre ++ m :: post
                              /\ raw_key m ∉ raw_key <$> pre))
  /\ (exists text private voice,
        sym_name text = Some "text" /\ sym_name private = Some "private"
        /\ sym_name voice = Some "voice"
        /\ EnumMeta_len three_kinds_world three_kinds_cls = Ok 3%nat
        /\ EnumMeta_call three_kinds_world three_kinds_cls (PInt 1) = Ok private
        /\ EnumMeta_iter three_kinds_world three_kinds_cls = Ok [text; private; voice]).
Proof.
  split.
  - intros w cls attrs (k & vc & vrec & Hk & Hd & _ & _ & Hs)%symbol_set_inv.
    exists (imap (symbol_at (S vc) vc) (canonical (declared attrs))),
      (canonical (declared attrs)), (S vc), vc.
    split_and!.
    + by eapply iter_describes.
    + unfold EnumMeta_len, enum_class. rewrite Hk. simpl.
      by rewrite (d_member_names _ _ _ Hd), length_fmap, length_imap.
    + by rewrite length_imap, canonical_length.
    + done.
    + apply canonical_sublist.
    + apply canonical_NoDup.
    + intros h. apply canonical_keys.
    + apply canonical_first.
  - eexists _, _, _. split_and!; try (vm_compute; reflexivity).
    all: simpl; reflexivity.
Qed.

Lemma iteration_first_declaration_order_witness :
  symbol_set three_kinds_world three_kinds_cls three_kinds
  /\ exists syms, EnumMeta_iter three_kinds_world three_kinds_cls = Ok syms
                  /\ EnumMeta_len three_kinds_world three_kinds_cls = Ok (length syms).
Proof.
  assert (H : symbol_set three_kinds_world three_kinds_cls three_kinds).
  { symbol_set_by_running "Kind" (@nil nat) empty_world three_kinds. }
  split; [exact H|].
  destruct (proj1 iteration_first_declaration_order _ _ _ H)
    as (syms & firsts & lo & vc & Hit & Hlen & _).
  exists syms. split; [exact Hit | exact Hlen].
Defined.

(** C8. Reverse iteration yields the records of forward iteration, as
    many, in the opposite order; each call computes its own sequence. *)
Theorem reversed_is_rev_of_iter w cls attrs :
  symbol_set w cls attrs ->
  exists syms,
    EnumMeta_iter w cls = Ok syms
    /\ EnumMeta_reversed w cls = Ok (rev syms)
    /\ length (rev syms) = length syms.
Proof.
  intros (k & vc & vrec & Hk & Hd & _ & _ & Hs)%symbol_set_inv.
  pose proof (iter_describes w cls k vc attrs Hk Hd) as Hit.
  eexists. split_and!; [exact Hit| |apply length_rev].
  unfold EnumMeta_iter, EnumMeta_reversed, enum_class in *. rewrite Hk in *.
  simpl in *. by apply generate_rev.
Qed.

Lemma reversed_is_rev_of_iter_witness :
  symbol_set loaded (ButtonStyle discord_enums) (namespace "ButtonStyle" ButtonStyle_body)
  /\ exists syms,
       EnumMeta_iter loaded (ButtonStyle discord_enums) = Ok syms
       /\ EnumMeta_reversed loaded (ButtonStyle discord_enums) = Ok (rev syms)
       /\ length (rev syms) = length syms.
Proof.
  assert (H : symbol_set loaded (ButtonStyle discord_enums)
                (namespace "ButtonStyle" ButtonStyle_body)).
  { symbol_set_by_running "ButtonStyle" [Enum discord_enums] before_ButtonStyle
      (namespace "ButtonStyle" ButtonStyle_body). }
  split; [exact H|].
  exact (reversed_is_rev_of_iter loaded (ButtonStyle discord_enums)
           (namespace "ButtonStyle" ButtonStyle_body) H).
Defined.

(** C5. Setting or deleting an attribute of a symbol-set type always
    raises [TypeError] ("Enums are immutable"), whatever the class, the
    name and the value, and leaves the store as it was: the class's
    member map, value map and list of member names are what they were. *)
Theorem enums_are_immutable w cls name value :
  (exists w',
     EnumMeta_setattr cls name value w = (Raise (TypeError "Enums are immutable."), w')
     /\ _enum_member_map_ <$> enum_classes w' !! cls = _enum_member_map_ <$> enum_classes w !! cls
     /\ _enum_value_map_ <$> enum_classes w' !! cls = _enum_value_map_ <$> enum_classes w !! cls
     /\ _enum_member_names_ <$> enum_classes w' !! cls
        = _enum_member_names_ <$> enum_classes w !! cls
     /\ w' = w)
  /\ (exists w',
        EnumMeta_delattr cls name w = (Raise (TypeError "Enums are immutable"), w')
        /\ _enum_member_map_ <$> enum_classes w' !! cls
           = _enum_member_map_ <$> enum_classes w !! cls
        /\ _enum_value_map_ <$> enum_classes w' !! cls
           = _enum_value_map_ <$> enum_classes w !! cls
        /\ _enum_member_names_ <$> enum_classes w' !! cls
           = _enum_member_names_ <$> enum_classes w !! cls
        /\ w' = w).
Proof. split; exists w; split_and!; reflexivity. Qed.

(** Every record the member map holds is one of the class's own. *)
Lemma member_map_records vc attrs k n s :
  describes vc attrs k -> _enum_member_map_ k !! n = Some s ->
  exists i m, canonical (declared attrs) !! i = Some m /\ s = symbol_at (S vc) vc i m.
Proof.
  intros Hd Hn.
  destruct (decide (n ∈ (declared attrs).*1)) as [Hin|Hnin].
  - apply list_elem_of_fmap in Hin as ([n' r] & -> & Hin). simpl in Hn.
    destruct (d_member_map _ _ _ Hd _ _ Hin) as (i & m & Hi & _ & Hs).
    exists i, m. split; [done|]. congruence.
  - rewrite (d_member_map_none _ _ _ Hd _ Hnin) in Hn. done.
Qed.

(** C6. [isinstance(x, A)] never raises and is true exactly when [x]
    carries an [_actual_enum_cls_] that is [A] itself.  So an object
    without the attribute, whatever it is, is no instance; a record of a
    symbol set [A] is an instance of [A], and of no other class [B]. *)
Theorem instancecheck_by_backref :
  (forall w self x,
     (exists b, EnumMeta_instancecheck w self x = Ok b)
     /\ (EnumMeta_instancecheck w self x = Ok true
         <-> getattr_actual_enum_cls w x = Ok self)
     /\ (getattr_actual_enum_cls w x = Raise AttributeError ->
         EnumMeta_instancecheck w self x = Ok false))
  /\ (forall w A attrs n s,
        symbol_set w A attrs -> EnumMeta_getitem w A n = Ok s ->
        EnumMeta_instancecheck w A s = Ok true
        /\ forall B, B <> A -> EnumMeta_instancecheck w B s = Ok false).
Proof.
  split.
  - intros w self x. unfold EnumMeta_instancecheck.
    assert (Herr : forall e, getattr_actual_enum_cls w x = Raise e -> e = AttributeError).
    { intros e. destruct x as [| | | | |? [c|]|? vc ? ?]; simpl; try congruence.
      destruct (_actual_enum_cls_ (value_cls_of w vc)); congruence. }
    destruct (getattr_actual_enum_cls w x) as [c|e].
    + split_and!; [eauto| |done].
      split.
      * intros [= Hc]. apply Nat.eqb_eq in Hc. by subst.
      * intros [= ->]. by rewrite Nat.eqb_refl.
    + rewrite (Herr e eq_refl). split_and!; [eauto|split; congruence|done].
  - intros w A attrs n s (k & vc & vrec & Hk & Hd & Hvc & Hact & _)%symbol_set_inv.
    unfold EnumMeta_getitem, enum_class, member_map_get. rewrite Hk. simpl.
    destruct (_enum_member_map_ k !! n) as [s'|] eqn:Hn; [|done].
    intros [= ->].
    destruct (member_map_records _ _ _ _ _ Hd Hn) as (i & m & _ & ->).
    unfold EnumMeta_instancecheck, symbol_at. simpl.
    unfold value_cls_of. rewrite Hvc. simpl. rewrite Hact.
    split; [by rewrite Nat.eqb_refl|].
    intros B HB. destruct (Nat.eqb A B) eqn:E; [|done].
    apply Nat.eqb_eq in E. by subst.
Qed.

Lemma instancecheck_by_backref_witness :
  symbol_set loaded (ButtonStyle discord_enums) (namespace "ButtonStyle" ButtonStyle_body)
  /\ (exists grey,
        EnumMeta_getitem loaded (ButtonStyle discord_enums) "gray" = Ok grey
        /\ EnumMeta_instancecheck loaded (ButtonStyle discord_enums) grey = Ok true
        /\ EnumMeta_instancecheck loaded (ChannelType discord_enums) grey = Ok false).
Proof.
  assert (H : symbol_set loaded (ButtonStyle discord_enums)
                (namespace "ButtonStyle" ButtonStyle_body)).
  { symbol_set_by_running "ButtonStyle" [Enum discord_enums] before_ButtonStyle
      (namespace "ButtonStyle" ButtonStyle_body). }
  split; [exact H|].
  exists (PSym 22 20 "grey" (PInt 2)).
  assert (Hg : EnumMeta_getitem loaded (ButtonStyle discord_enums) "gray"
               = Ok (PSym 22 20 "grey" (PInt 2))) by (vm_compute; reflexivity).
  destruct (proj2 instancecheck_by_backref loaded (ButtonStyle discord_enums)
              (namespace "ButtonStyle" ButtonStyle_body) "gray" _ H Hg) as [Ht Hf].
  split; [exact Hg|]. split; [exact Ht|].
  apply Hf. vm_compute. discriminate.
Defined.

(** ** [ButtonColor], [ComponentType] and [AuditLogAction] *)

Lemma record_instancecheck w A attrs n s :
  symbol_set w A attrs -> EnumMeta_getitem w A n = Ok s ->
  forall B, EnumMeta_instancecheck w B s = Ok (Nat.eqb A B).
Proof.
  intros (k & vc & vrec & Hk & Hd & Hvc & Hact & _)%symbol_set_inv.
  unfold EnumMeta_getitem, enum_class, member_map_get. rewrite Hk. simpl.
  destruct (_enum_member_map_ k !! n) as [s'|] eqn:Hn; [|done].
  intros [= ->] B.
  destruct (member_map_records _ _ _ _ _ Hd Hn) as (i & m & _ & ->).
  unfold EnumMeta_instancecheck, symbol_at. simpl.
  unfold value_cls_of. rewrite Hvc. simpl. by rewrite Hact.
Qed.

(** A class with an empty value map resolves nothing. *)
Lemma empty_value_map_resolve w cls k v :
  enum_classes w !! cls = Some k -> _enum_value_map_ k = [] ->
  EnumMeta_call w cls v = Raise (ValueError v (cls_name k))
  /\ try_value w cls v = Ok v /\ try_enum w cls v = Ok v.
Proof.
  intros Hk Hvm. unfold EnumMeta_call, try_value, try_enum, enum_class.
  rewrite Hk. simpl. rewrite Hvm. unfold dict_get.
  destruct (py_hash v); simpl; done.
Qed.

(** C9. [ButtonColor], a subclass of [ButtonStyle] with an empty body,
    is a symbol set of its own with nothing in it: empty value map,
    member map and member list, [len] 0, nothing to iterate; calling it
    raises [ValueError] on every value (2 included, which [ButtonStyle]
    resolves), [try_value] and [try_enum] hand every value back, and no
    record of [ButtonStyle] is an instance of it. *)
Theorem ButtonColor_is_empty :
  (exists k, enum_classes loaded !! ButtonColor discord_enums = Some k
             /\ cls_bases k = [ButtonStyle discord_enums]
             /\ _enum_value_map_ k = [] /\ _enum_member_map_ k = ∅
             /\ _enum_member_names_ k = [])
  /\ EnumMeta_len loaded (ButtonColor discord_enums) = Ok 0%nat
  /\ EnumMeta_iter loaded (ButtonColor discord_enums) = Ok []
  /\ (forall v, EnumMeta_call loaded (ButtonColor discord_enums) v
                = Raise (ValueError v "ButtonColor"))
  /\ (exists grey, EnumMeta_call loaded (ButtonStyle discord_enums) (PInt 2) = Ok grey
                   /\ sym_value grey = Some (PInt 2))
  /\ (forall v, try_value loaded (ButtonColor discord_enums) v = Ok v
                /\ try_enum loaded (ButtonColor discord_enums) v = Ok v)
  /\ (forall n s, EnumMeta_getitem loaded (ButtonStyle discord_enums) n = Ok s ->
                  EnumMeta_instancecheck loaded (ButtonColor discord_enums) s = Ok false).
Proof.
  assert (Hk : exists k, enum_classes loaded !! ButtonColor discord_enums = Some k
             /\ cls_bases k = [ButtonStyle discord_enums]
             /\ _enum_value_map_ k = [] /\ _enum_member_map_ k = ∅
             /\ _enum_member_names_ k = [] /\ cls_name k = "ButtonColor").
  { eexists. split_and!; vm_compute; reflexivity. }
  destruct Hk as (k & Hk & Hb & Hvm & Hmm & Hnames & Hname).
  split_and!.
  - exists k. by split_and!.
  - vm_compute. reflexivity.
  - vm_compute. reflexivity.
  - intros v.
    destruct (empty_value_map_resolve loaded _ k v Hk Hvm) as (H1 & _ & _).
    rewrite Hname in H1. exact H1.
  - eexists. split; vm_compute; reflexivity.
  - intros v.
    destruct (empty_value_map_resolve loaded _ k v Hk Hvm) as (_ & H2 & H3).
    split; [exact H2 | exact H3].
  - intros n s Hs.
    assert (H : symbol_set loaded (ButtonStyle discord_enums)
                  (namespace "ButtonStyle" ButtonStyle_body)).
    { symbol_set_by_running "ButtonStyle" [Enum discord_enums] before_ButtonStyle
        (namespace "ButtonStyle" ButtonStyle_body). }
    rewrite (record_instancecheck _ _ _ _ _ H Hs). vm_compute. reflexivity.
Qed.

(** C10, as the code has it.  For every member [s] of [ComponentType],
    [s == s.value] and [s == s.name] are true, and so is [s == s]:
    [int(self) == other] asks [int.__eq__], which answers
    [NotImplemented] for a record, whereupon Python asks the record's
    own [__eq__] with the operands swapped, and that one finds
    [int(other) == 2].  Two different members are unequal. *)
Theorem ComponentType_eq :
  exists members,
    EnumMeta_iter loaded (ComponentType discord_enums) = Ok members
    /\ Forall (fun s =>
         exists id vc name z,
           s = PSym id vc name (PInt z)
           /\ py_eq loaded s (PInt z) = Ok true
           /\ py_eq loaded s (PStr name) = Ok true
           /\ py_eq loaded (PInt z) s = Ok true
           /\ py_eq loaded s s = Ok true
           /\ Forall (fun s' => s' = s \/ py_eq loaded s s' = Ok false) members)
       members.
Proof.
  eexists. split; [vm_compute; reflexivity|].
  repeat first [apply List.Forall_nil | apply List.Forall_cons];
    (eexists _, _, _, _; split; [reflexivity|];
     split_and!; try (vm_compute; reflexivity));
    repeat first [apply List.Forall_nil | apply List.Forall_cons];
    first [left; reflexivity | right; vm_compute; reflexivity].
Qed.

(** Against C10 as worded: at [ComponentType.Button], [s == s] is true,
    not false. *)
Lemma ComponentType_eq_reflexive_at_Button :
  exists button,
    EnumMeta_getitem loaded (ComponentType discord_enums) "Button" = Ok button
    /\ py_eq loaded button (PInt 2) = Ok true
    /\ py_eq loaded button (PStr "Button") = Ok true
    /\ py_eq loaded button button = Ok true
    /\ py_eq loaded button button <> Ok false.
Proof.
  eexists. split_and!; [vm_compute; reflexivity..|].
  vm_compute. discriminate.
Qed.

Ltac by_running :=
  let H := fresh in
  intros H;
  first [ vm_compute; reflexivity
        | exfalso; vm_compute in H; discriminate H
        | exfalso; lia ].

(** C7. On every member of [AuditLogAction], [category] and
    [target_type] are functions of the member alone (they read the two
    classes and write nothing).  [category] is the [create], [update] or
    [delete] member of [AuditLogActionCategory] according to the suffix
    of the member's name ([message_bulk_delete] included) and [None] for
    the nine members listed in [uncategorised]; every member is in one
    of these cases.  [target_type] names the decade of the raw value:
    below 10 ['guild'], 10-19 ['channel'], ..., 80-89 ['integration'];
    every member's raw value lies between 0 and 89. *)
Theorem AuditLogAction_category_and_target_type :
  exists members create update delete,
    EnumMeta_iter loaded (AuditLogAction discord_enums) = Ok members
    /\ length members = 35%nat
    /\ EnumMeta_getitem loaded (AuditLogActionCategory discord_enums) "create" = Ok create
    /\ EnumMeta_getitem loaded (AuditLogActionCategory discord_enums) "update" = Ok update
    /\ EnumMeta_getitem loaded (AuditLogActionCategory discord_enums) "delete" = Ok delete
    /\ Forall (fun s =>
         exists id vc name z,
           s = PSym id vc name (PInt z)
           /\ (ends_with "_create" name = true -> get_category loaded s = Ok create)
           /\ (ends_with "_update" name = true -> get_category loaded s = Ok update)
           /\ (ends_with "_delete" name = true -> get_category loaded s = Ok delete)
           /\ (bool_decide (name ∈ uncategorised) = true ->
               get_category loaded s = Ok PNone)
           /\ (ends_with "_create" name || ends_with "_update" name
               || ends_with "_delete" name || bool_decide (name ∈ uncategorised) = true)
           /\ 0 <= z < 90
           /\ (z < 10 -> get_target_type loaded s = Ok (PStr "guild"))
           /\ (10 <= z < 20 -> get_target_type loaded s = Ok (PStr "channel"))
           /\ (20 <= z < 30 -> get_target_type loaded s = Ok (PStr "user"))
           /\ (30 <= z < 40 -> get_target_type loaded s = Ok (PStr "role"))
           /\ (40 <= z < 50 -> get_target_type loaded s = Ok (PStr "invite"))
           /\ (50 <= z < 60 -> get_target_type loaded s = Ok (PStr "webhook"))
           /\ (60 <= z < 70 -> get_target_type loaded s = Ok (PStr "emoji"))
           /\ (70 <= z < 80 -> get_target_type loaded s = Ok (PStr "message"))
           /\ (80 <= z < 90 -> get_target_type loaded s = Ok (PStr "integration")))
       members.
Proof.
  eexists _, _, _, _. split; [vm_compute; reflexivity|].
  split; [reflexivity|].
  split; [vm_compute; reflexivity|].
  split; [vm_compute; reflexivity|].
  split; [vm_compute; reflexivity|].
  repeat first [apply List.Forall_nil | apply List.Forall_cons];
    (eexists _, _, _, _; split; [reflexivity|];
     split_and!; first [by_running | vm_compute; reflexivity | lia]).
Qed.

(** ** Instances of the resolution theorems *)

Lemma declares_iff attrs v :
  declares attrs v <-> hash_of v ∈ raw_key <$> declared attrs.
Proof.
  split.
  - intros (n & r & Hin & Hrv). apply list_elem_of_fmap. exists (n, r).
    split; [|done]. by rewrite <- Hrv.
  - intros ([n r] & Hm & Hin)%list_elem_of_fmap. by exists n, r.
Qed.

Lemma try_resolve_never_raises_witness :
  symbol_set loaded (ChannelType discord_enums) (namespace "ChannelType" ChannelType_body)
  /\ try_value loaded (ChannelType discord_enums) (PInt 999) = Ok (PInt 999)
  /\ try_enum loaded (ChannelType discord_enums) (PInt 999) = Ok (PInt 999)
  /\ try_value loaded (ChannelType discord_enums) (PList []) = Ok (PList []).
Proof.
  assert (H : symbol_set loaded (ChannelType discord_enums)
                (namespace "ChannelType" ChannelType_body)).
  { symbol_set_by_running "ChannelType" [Enum discord_enums] before_ChannelType
      (namespace "ChannelType" ChannelType_body). }
  split; [exact H|].
  destruct (try_resolve_never_raises loaded (ChannelType discord_enums)
              (namespace "ChannelType" ChannelType_body) (PInt 999) H)
    as (r & Htv & Hte & _ & Hno).
  destruct (try_resolve_never_raises loaded (ChannelType discord_enums)
              (namespace "ChannelType" ChannelType_body) (PList []) H)
    as (r' & Htv' & _ & _ & Hno').
  assert (Hr : r = PInt 999).
  { apply Hno. intros Hd%declares_iff.
    apply (bool_decide_pack _) in Hd. vm_compute in Hd. exact Hd. }
  assert (Hr' : r' = PList []).
  { apply Hno'. intros Hd%declares_iff.
    apply (bool_decide_pack _) in Hd. vm_compute in Hd. exact Hd. }
  subst r r'. split; [exact Htv|]. split; [exact Hte | exact Htv'].
Defined.

Lemma strict_resolve_iff_declared_witness :
  symbol_set loaded (ChannelType discord_enums) (namespace "ChannelType" ChannelType_body)
  /\ (exists s, EnumMeta_call loaded (ChannelType discord_enums) (PInt 1) = Ok s)
  /\ (exists k, enum_classes loaded !! ChannelType discord_enums = Some k
                /\ EnumMeta_call loaded (ChannelType discord_enums) (PInt 999)
                   = Raise (ValueError (PInt 999) (cls_name k))).
Proof.
  assert (H : symbol_set loaded (ChannelType discord_enums)
                (namespace "ChannelType" ChannelType_body)).
  { symbol_set_by_running "ChannelType" [Enum discord_enums] before_ChannelType
      (namespace "ChannelType" ChannelType_body). }
  split; [exact H|]. split.
  - apply (proj1 (strict_resolve_iff_declared loaded (ChannelType discord_enums)
                    (namespace "ChannelType" ChannelType_body) (PInt 1) H)).
    apply declares_iff. apply (bool_decide_unpack _). vm_compute. exact I.
  - apply (proj2 (proj2 (strict_resolve_iff_declared loaded (ChannelType discord_enums)
                    (namespace "ChannelType" ChannelType_body) (PInt 999) H))).
    intros Hd%declares_iff.
    apply (bool_decide_pack _) in Hd. vm_compute in Hd. exact Hd.
Defined.

(** ** What [EnumMeta.__new__] touches, and when it fails *)



Lemma new_loop_app vc l1 l2 : forall st w,
  new_loop vc st (l1 ++ l2) w
  = match new_loop vc st l1 w with
    | (Ok st', w') => new_loop vc st' l2 w'
    | (Raise e, w') => (Raise e, w')
    end.
Proof.
  induction l1 as [|e l1 IH]; intros st w; simpl; [done|].
  unfold bind. destruct (new_step vc st e w) as [[st1|err] w1]; [apply IH|done].
Qed.




(** X6. A raw value that cannot be hashed makes the class statement fail
    with the [TypeError] of the dictionary lookup, and a name that is the
    empty string with [IndexError] ([key[0]]); the entries before it
    have been looked at, but no class is made and none is changed. *)
Theorem EnumMeta_new_rejects name bases pre e post w :
  attrs_ok pre = true ->
  (entry_key e = "" ->
     exists w', EnumMeta_new name bases (pre ++ e :: post) w = (Raise IndexError, w')
                /\ enum_classes w' = enum_classes w)
  /\ (forall k v msg,
        e = Assign k v -> k <> "" -> starts_with_underscore k = false ->
        py_hash v = Raise msg ->
        exists w', EnumMeta_new name bases (pre ++ e :: post) w = (Raise (TypeError msg), w')
                   /\ enum_classes w' = enum_classes w).
Proof.
  intros (Hnd & Hne & Hsc)%attrs_ok_spec.
  assert (Hrun : forall err,
    (forall st w1, new_step (next_oid w) st e w1 = (Raise err, w1)) ->
    exists w', EnumMeta_new name bases (pre ++ e :: post) w = (Raise err, w')
               /\ enum_classes w' = enum_classes w).
  { intros err Hstep.
    unfold EnumMeta_new, _create_value_cls, bind, alloc, set_value_cls, modify, ret.
    simpl. rewrite new_loop_app.
    match goal with |- context [new_loop ?v ?s pre ?w1] =>
      destruct (new_loop_inv v (S (next_oid w)) w1 pre [] s w1)
        as (st & w2 & Hloop & Hinv) end; try done.
    { split; simpl; try done.
      - by intros ? ? ?%elem_of_nil.
      - rewrite lookup_insert_eq. eauto. }
    rewrite Hloop. simpl. unfold bind. rewrite Hstep.
    eexists. split; [done|]. by destruct Hinv. }
  split.
  - intros Hkey. apply Hrun. intros st w1.
    unfold new_step, bind, read. by rewrite Hkey.
  - intros k v msg -> Hk Hu Hv. apply Hrun. intros st w1.
    destruct k as [|c k']; [done|]. simpl in Hu.
    unfold new_step, bind, read, ret. simpl. rewrite Hu. simpl.
    unfold dict_get. by rewrite Hv.
Qed.

Lemma EnumMeta_new_rejects_witness :
  attrs_ok three_kinds = true
  /\ exists w', EnumMeta_new "Kind" [] (three_kinds ++ Assign "stage" (PList [PInt 13]) :: [])
                  empty_world
                = (Raise (TypeError "unhashable type: 'list'"), w')
                /\ enum_classes w' = enum_classes empty_world.
Proof.
  assert (H : attrs_ok three_kinds = true) by (vm_compute; reflexivity).
  split; [exact H|].
  apply (proj2 (EnumMeta_new_rejects "Kind" [] three_kinds
                  (Assign "stage" (PList [PInt 13])) [] empty_world H)
           "stage" (PList [PInt 13]) "unhashable type: 'list'").
  - reflexivity.
  - discriminate.
  - reflexivity.
  - reflexivity.
Defined.

(** ** Names, views and round trips *)

Lemma declared_cons e attrs :
  declared (e :: attrs) = option_list (member_of e) ++ declared attrs.
Proof. unfold declared. simpl. by destruct (member_of e). Qed.

Lemma declared_names_NoDup attrs :
  NoDup (entry_key <$> attrs) -> NoDup (declared attrs).*1.
Proof.
  induction attrs as [|e attrs IH]; [constructor|].
  rewrite fmap_cons. intros [Hnot Hnd]%NoDup_cons. rewrite declared_cons.
  destruct (member_of e) as [[n r]|] eqn:He; simpl; [|by apply IH].
  apply NoDup_cons. split; [|by apply IH].
  intros ([n' r'] & Hn & Hin)%list_elem_of_fmap. simpl in Hn. subst n'.
  apply Hnot. apply declared_names in Hin.
  destruct e as [k v| |]; simpl in He; try done.
  destruct (starts_with_underscore k); by inversion He.
Qed.

Lemma member_of_key e m : member_of e = Some m -> entry_key e = m.1.
Proof.
  destruct e as [k v| |]; simpl; try done.
  destruct (starts_with_underscore k); by intros [= <-].
Qed.

(** A name that no entry declares as a member is not a declared name. *)
Lemma not_member_not_declared attrs e :
  NoDup (entry_key <$> attrs) -> e ∈ attrs -> member_of e = None ->
  entry_key e ∉ (declared attrs).*1.
Proof.
  intros Hnd He Hm ([n r] & Hn & Hin)%list_elem_of_fmap. simpl in Hn.
  unfold declared in Hin. apply list_elem_of_omap in Hin as (e' & He' & Hm').
  apply member_of_key in Hm' as Hk'. simpl in Hk'.
  apply list_elem_of_lookup in He as [i Hi]. apply list_elem_of_lookup in He' as [j Hj].
  assert (i = j) as ->.
  { eapply (NoDup_lookup _ _ _ _ Hnd); rewrite list_lookup_fmap.
    - by rewrite Hi.
    - rewrite Hj. simpl. congruence. }
  congruence.
Qed.

(** X1. [cls[name]] raises [KeyError] exactly for the names that are not
    declared member names; in particular for the names of the class's
    methods, properties and underscore attributes. *)
Theorem getitem_unknown_name w cls attrs :
  symbol_set w cls attrs ->
  (forall n, EnumMeta_getitem w cls n = Raise KeyError <-> n ∉ (declared attrs).*1)
  /\ (forall n, n ∈ (declared attrs).*1 -> exists s, EnumMeta_getitem w cls n = Ok s)
  /\ (forall e, e ∈ attrs -> member_of e = None ->
        EnumMeta_getitem w cls (entry_key e) = Raise KeyError).
Proof.
  intros Hset. pose proof Hset as (k & vc & vrec & Hk & Hd & _ & _ & Hs)%symbol_set_inv.
  assert (Hyes : forall n, n ∈ (declared attrs).*1 ->
                   exists s, EnumMeta_getitem w cls n = Ok s).
  { intros n ([n' r] & -> & Hin)%list_elem_of_fmap.
    destruct (getitem_describes w cls k vc attrs n' r Hk Hd Hin) as (i & m & _ & _ & Hg).
    simpl. eauto. }
  assert (Hno : forall n, n ∉ (declared attrs).*1 ->
                  EnumMeta_getitem w cls n = Raise KeyError).
  { intros n Hn. unfold EnumMeta_getitem, enum_class, member_map_get. rewrite Hk. simpl.
    by rewrite (d_member_map_none _ _ _ Hd _ Hn). }
  split_and!; [|done|].
  - intros n. split; [|by apply Hno].
    intros Herr Hin. destruct (Hyes n Hin) as [s Hsn]. congruence.
  - intros e He Hm. apply Hno.
    destruct Hset as [Hok _]. apply attrs_ok_spec in Hok as (Hnd & _ & _).
    by apply not_member_not_declared.
Qed.

Lemma getitem_unknown_name_witness :
  symbol_set loaded (ButtonStyle discord_enums) (namespace "ButtonStyle" ButtonStyle_body)
  /\ EnumMeta_getitem loaded (ButtonStyle discord_enums) "from_value" = Raise KeyError.
Proof.
  assert (H : symbol_set loaded (ButtonStyle discord_enums)
                (namespace "ButtonStyle" ButtonStyle_body)).
  { symbol_set_by_running "ButtonStyle" [Enum discord_enums] before_ButtonStyle
      (namespace "ButtonStyle" ButtonStyle_body). }
  split; [exact H|].
  apply (proj2 (proj2 (getitem_unknown_name loaded (ButtonStyle discord_enums)
           (namespace "ButtonStyle" ButtonStyle_body) H))
           (Classmethod "from_value" CM_from_value)).
  - vm_compute. repeat first [left | right].
  - reflexivity.
Defined.

(** X3. Every record a symbol set iterates over is found again from its
    own fields: calling the class, [try_value] and [try_enum] on its
    [value], and looking its [name] up, all give that very record. *)
Theorem resolve_roundtrip w cls attrs :
  symbol_set w cls attrs ->
  exists syms,
    EnumMeta_iter w cls = Ok syms
    /\ forall s, s ∈ syms ->
         exists id vc n v,
           s = PSym id vc n v
           /\ EnumMeta_call w cls v = Ok s
           /\ try_value w cls v = Ok s
           /\ try_enum w cls v = Ok s
           /\ EnumMeta_getitem w cls n = Ok s.
Proof.
  intros (k & vc & vrec & Hk & Hd & _ & _ & Hs)%symbol_set_inv.
  eexists. split; [by eapply iter_describes|].
  intros s (i & [n v] & -> & Hi)%elem_of_lookup_imap.
  exists (S vc + i)%nat, vc, n, v. split; [done|].
  assert (Hv : is_scalar v = true).
  { apply (proj1 (Forall_forall _ _) (canonical_scalars _ Hs) (n, v)).
    by eapply list_elem_of_lookup_2. }
  destruct (scalar_hash _ Hv) as [h Hh].
  assert (Hget : dict_get w (_enum_value_map_ k) v = Ok (symbol_at (S vc) vc i (n, v))).
  { rewrite (d_value_map _ _ _ Hd).
    eapply dict_get_value_entries; eauto using canonical_NoDup, canonical_scalars.
    unfold raw_key. simpl. by apply hash_of_Some. }
  unfold EnumMeta_call, try_value, try_enum, EnumMeta_getitem, enum_class.
  rewrite Hk. simpl. rewrite Hget. split_and!; try done.
  apply (member_map_canonical vc attrs k i (n, v) Hd Hi).
Qed.

Lemma resolve_roundtrip_witness :
  symbol_set three_kinds_world three_kinds_cls three_kinds
  /\ exists syms, EnumMeta_iter three_kinds_world three_kinds_cls = Ok syms
       /\ forall s, s ∈ syms ->
            exists id vc n v, s = PSym id vc n v
              /\ EnumMeta_call three_kinds_world three_kinds_cls v = Ok s
              /\ try_value three_kinds_world three_kinds_cls v = Ok s
              /\ try_enum three_kinds_world three_kinds_cls v = Ok s
              /\ EnumMeta_getitem three_kinds_world three_kinds_cls n = Ok s.
Proof.
  assert (H : symbol_set three_kinds_world three_kinds_cls three_kinds).
  { symbol_set_by_running "Kind" (@nil nat) empty_world three_kinds. }
  split; [exact H|].
  exact (resolve_roundtrip three_kinds_world three_kinds_cls three_kinds H).
Defined.

Lemma scalar_hash_not_tuple r id vc n v :
  is_scalar r = true -> hash_of r <> hash_of (PSym id vc n v).
Proof.
  unfold hash_of. simpl. destruct (py_hash v); simpl;
    destruct r; try discriminate; simpl; congruence.
Qed.

(** X9. A record is not a raw value: calling a symbol set on a record
    (one of its own included) raises [ValueError], and [try_value] hands
    the record back.  The record's class is one without [__eq__] of its
    own, so that no hash decides the lookup. *)
Theorem records_are_not_raw_values w cls attrs id vc n v :
  symbol_set w cls attrs ->
  vc_eq (value_cls_of w vc) = false ->
  exists k, enum_classes w !! cls = Some k
    /\ EnumMeta_call w cls (PSym id vc n v) = Raise (ValueError (PSym id vc n v) (cls_name k))
    /\ try_value w cls (PSym id vc n v) = Ok (PSym id vc n v)
    /\ try_enum w cls (PSym id vc n v) = Ok (PSym id vc n v).
Proof.
  intros (k & vc' & vrec & Hk & Hd & _ & _ & Hs)%symbol_set_inv _.
  exists k. split; [done|].
  unfold EnumMeta_call, try_value, try_enum, enum_class. rewrite Hk. simpl.
  assert (Hno : ~ declares attrs (PSym id vc n v)).
  { intros (n' & r & Hin & Hrv). eapply scalar_hash_not_tuple; [|exact Hrv].
    apply (proj1 (Forall_forall _ _) Hs (n', r) Hin). }
  by destruct (value_map_miss w vc' attrs k _ Hd Hs Hno) as [-> | [msg ->]].
Qed.

Lemma records_are_not_raw_values_witness :
  symbol_set three_kinds_world three_kinds_cls three_kinds
  /\ vc_eq (value_cls_of three_kinds_world 0%nat) = false
  /\ exists k, enum_classes three_kinds_world !! three_kinds_cls = Some k
       /\ EnumMeta_call three_kinds_world three_kinds_cls (PSym 1 0 "text" (PInt 0))
          = Raise (ValueError (PSym 1 0 "text" (PInt 0)) (cls_name k))
       /\ try_value three_kinds_world three_kinds_cls (PSym 1 0 "text" (PInt 0))
          = Ok (PSym 1 0 "text" (PInt 0))
       /\ try_enum three_kinds_world three_kinds_cls (PSym 1 0 "text" (PInt 0))
          = Ok (PSym 1 0 "text" (PInt 0)).
Proof.
  assert (H : symbol_set three_kinds_world three_kinds_cls three_kinds).
  { symbol_set_by_running "Kind" (@nil nat) empty_world three_kinds. }
  assert (H' : vc_eq (value_cls_of three_kinds_world 0%nat) = false)
    by (vm_compute; reflexivity).
  split; [exact H|]. split; [exact H'|].
  exact (records_are_not_raw_values three_kinds_world three_kinds_cls three_kinds
           1%nat 0%nat "text" (PInt 0) H H').
Defined.

Lemma remove_dups_length_le {A} `{EqDecision A} (l : list A) :
  (length (remove_dups l) <= length l)%nat.
Proof.
  induction l as [|x l IH]; simpl; [lia|].
  destruct (decide_rel elem_of x l); simpl; lia.
Qed.

Lemma remove_dups_length_NoDup {A} `{EqDecision A} (l : list A) :
  length (remove_dups l) = length l <-> NoDup l.
Proof.
  induction l as [|x l IH]; simpl; [split; [constructor|done]|].
  pose proof (remove_dups_length_le l).
  destruct (decide_rel elem_of x l) as [Hin|Hnin]; simpl.
  - split; [lia|]. by intros [? _]%NoDup_cons.
  - rewrite NoDup_cons. split.
    + intros [= Hl]. split; [done|]. by apply IH.
    + intros [_ Hl]. f_equal. by apply IH.
Qed.

(** X2. The [__members__] view binds exactly the declared names, aliases
    included, each to one of the iterated records.  It therefore has as
    many names as were declared, at least as many as [len] counts, and
    exactly as many when no raw value was declared twice. *)
Theorem members_view_has_every_name w cls attrs :
  symbol_set w cls attrs ->
  exists m syms,
    EnumMeta_members w cls = Ok m
    /\ EnumMeta_iter w cls = Ok syms
    /\ (forall n, is_Some (m !! n) <-> n ∈ (declared attrs).*1)
    /\ size m = length (declared attrs)
    /\ (length syms <= size m)%nat
    /\ (length syms = size m <-> NoDup (raw_key <$> declared attrs))
    /\ (forall n s, m !! n = Some s -> s ∈ syms).
Proof.
  intros Hset. pose proof Hset as (k & vc & vrec & Hk & Hd & _ & _ & Hs)%symbol_set_inv.
  destruct Hset as [Hok _]. apply attrs_ok_spec in Hok as (Hnd & _ & _).
  assert (Hdom : forall n, is_Some (_enum_member_map_ k !! n) <-> n ∈ (declared attrs).*1).
  { intros n. split.
    - intros Hsome. destruct (decide (n ∈ (declared attrs).*1)) as [|Hn]; [done|].
      rewrite (d_member_map_none _ _ _ Hd _ Hn) in Hsome. by destruct Hsome.
    - intros ([n' r] & -> & Hin)%list_elem_of_fmap.
      destruct (d_member_map _ _ _ Hd _ _ Hin) as (i & m & _ & _ & Hm). simpl. eauto. }
  assert (Hsize : size (_enum_member_map_ k) = length (declared attrs)).
  { rewrite <- (size_dom (D:=gset string)).
    assert (dom (_enum_member_map_ k) = list_to_set (declared attrs).*1) as ->.
    { apply set_eq. intros n. rewrite elem_of_dom, elem_of_list_to_set. apply Hdom. }
    rewrite size_list_to_set by by apply declared_names_NoDup.
    by rewrite length_fmap. }
  exists (_enum_member_map_ k), (imap (symbol_at (S vc) vc) (canonical (declared attrs))).
  split_and!.
  - unfold EnumMeta_members, enum_class. by rewrite Hk.
  - by eapply iter_describes.
  - done.
  - done.
  - rewrite Hsize, length_imap. apply sublist_length, canonical_sublist.
  - rewrite Hsize, length_imap, canonical_length.
    rewrite <- (length_fmap raw_key (declared attrs)). apply remove_dups_length_NoDup.
  - intros n s Hn. destruct (member_map_records _ _ _ _ _ Hd Hn) as (i & m & Hi & ->).
    apply elem_of_lookup_imap. eauto.
Qed.

Lemma members_view_has_every_name_witness :
  symbol_set loaded (ButtonStyle discord_enums) (namespace "ButtonStyle" ButtonStyle_body)
  /\ exists m syms,
       EnumMeta_members loaded (ButtonStyle discord_enums) = Ok m
       /\ EnumMeta_iter loaded (ButtonStyle discord_enums) = Ok syms
       /\ size m = 13%nat /\ (length syms <= size m)%nat.
Proof.
  assert (H : symbol_set loaded (ButtonStyle discord_enums)
                (namespace "ButtonStyle" ButtonStyle_body)).
  { symbol_set_by_running "ButtonStyle" [Enum discord_enums] before_ButtonStyle
      (namespace "ButtonStyle" ButtonStyle_body). }
  split; [exact H|].
  destruct (members_view_has_every_name loaded (ButtonStyle discord_enums)
              (namespace "ButtonStyle" ButtonStyle_body) H)
    as (m & syms & Hm & Hit & _ & Hsize & Hle & _).
  exists m, syms. split; [exact Hm|]. split; [exact Hit|]. split; [|exact Hle].
  rewrite Hsize. vm_compute. reflexivity.
Defined.

(** ** The class namespace and the namedtuple class *)

(** What one successful turn of the loop does to the locals and to the
    namedtuple class. *)
Lemma new_step_effect vc st e w st' w' :
  new_step vc st e w = (Ok st', w') ->
  match e with
  | Def d =>
      member_mapping st' = member_mapping st
      /\ attrs_now st' = delete (descr_name d) (attrs_now st)
      /\ value_classes w' !! vc = Some (vc_setattr d (value_cls_of w vc))
  | Classmethod _ _ => st' = st /\ w' = w
  | Assign k v =>
      (starts_with_underscore k = true /\ st' = st /\ w' = w)
      \/ (starts_with_underscore k = false
          /\ value_classes w' = value_classes w
          /\ exists s, member_mapping st' = <[k := s]> (member_mapping st)
                       /\ attrs_now st' = <[k := AValue s]> (attrs_now st))
  end.
Proof.
  unfold new_step, bind, read, ret.
  destruct (str_first (entry_key e)) as [c|err] eqn:Hc; simpl; [|done].
  destruct e as [k v|k m|d]; simpl in *.
  - destruct k as [|c' k']; [done|]. injection Hc as ->. simpl.
    rewrite andb_true_r. destruct (Ascii.eqb c "_"%char).
    + intros [= <- <-]. by left.
    + destruct (dict_get w (value_mapping st) v) as [s|[]]; try done.
      * intros [= <- <-]. right. simpl. eauto.
      * unfold alloc. simpl. destruct (dict_set _ _ _ _); [|done].
        intros [= <- <-]. right. simpl. eauto.
  - rewrite andb_false_r. by intros [= <- <-].
  - rewrite andb_false_r. unfold update_value_cls, modify. simpl.
    intros [= <- <-]. simpl. split_and!; [done|done|]. apply lookup_insert_eq.
Qed.

Lemma defs_snoc done e :
  defs (done ++ [e]) = defs done ++ match e with Def d => [d] | _ => [] end.
Proof. unfold defs. rewrite omap_app. simpl. by destruct e. Qed.

Lemma attrs_init_lookup attrs e :
  NoDup (entry_key <$> attrs) -> e ∈ attrs ->
  attrs_init attrs !! entry_key e = Some (entry_attr e).
Proof.
  intros Hnd He. unfold attrs_init. apply elem_of_list_to_map.
  - by rewrite map_map.
  - apply (list_elem_of_fmap_2 (fun e => (entry_key e, entry_attr e))) in He. exact He.
Qed.

Lemma new_step_ns name vc attrs done e st w st' w' :
  ns_inv name vc attrs done st w ->
  NoDup (entry_key <$> attrs) -> e ∈ attrs ->
  entry_key e ∉ entry_key <$> done ->
  new_step vc st e w = (Ok st', w') ->
  ns_inv name vc attrs (done ++ [e]) st' w'.
Proof.
  intros [N1 N2 N3 N4 N5 N6] Hnd Hin Hfresh Hstep.
  assert (Hother : forall x, x ∈ done -> entry_key x <> entry_key e).
  { intros x Hx Heq. apply Hfresh. rewrite <- Heq. by apply list_elem_of_fmap_2. }
  assert (Hmm : member_mapping st !! entry_key e = None).
  { destruct (member_mapping st !! entry_key e) eqn:E; [|done].
    exfalso. apply Hfresh, N2. by rewrite E. }
  assert (Hkeys : forall n, n ∈ entry_key <$> done -> n ∈ entry_key <$> done ++ [e]).
  { intros n Hn. rewrite fmap_app. apply elem_of_app. by left. }
  assert (Hkeys' : forall n, n ∉ entry_key <$> done ++ [e] ->
                     (n ∉ entry_key <$> done) /\ n <> entry_key e).
  { intros n Hn. rewrite fmap_app, not_elem_of_app in Hn. destruct Hn as [? Hn].
    split; [done|]. intros ->. apply Hn. simpl. left. }
  apply new_step_effect in Hstep.
  assert (Hskip : st' = st -> w' = w -> (forall d, e <> Def d) -> member_of e = None ->
                  ns_inv name vc attrs (done ++ [e]) st' w').
  { intros -> -> Hnodef Hmem. split.
    - done.
    - intros n Hn. by apply Hkeys, N2.
    - intros d [Hd|Hd%list_elem_of_singleton]%elem_of_app; [by apply N3|].
      by destruct (Hnodef d).
    - intros x [Hx|Hx%list_elem_of_singleton]%elem_of_app ? ?; [by apply N4|].
      subst x. rewrite N5 by done. by apply attrs_init_lookup.
    - intros n Hn. apply Hkeys' in Hn as [Hn _]. by apply N5.
    - rewrite defs_snoc. destruct e; [by rewrite app_nil_r..|]. by destruct (Hnodef d). }
  destruct e as [k v|k m|d]; simpl in *.
  - destruct Hstep as [(Hu & -> & ->)|(Hu & Hvc & s & Hmap & Hattrs)].
    + apply Hskip; try done. by rewrite Hu.
    + split.
      * intros n s'. rewrite Hmap, Hattrs. destruct (decide (k = n)) as [<-|Hne].
        -- rewrite !lookup_insert_eq. congruence.
        -- rewrite !lookup_insert_ne by done. apply N1.
      * intros n. rewrite Hmap. destruct (decide (k = n)) as [<-|Hne].
        -- intros _. rewrite fmap_app. apply elem_of_app. right. simpl. left.
        -- rewrite lookup_insert_ne by done. intros Hn. by apply Hkeys, N2.
      * intros d [Hd|Hd%list_elem_of_singleton]%elem_of_app; [|done].
        rewrite Hattrs, lookup_insert_ne; [by apply N3|].
        intros Heq. by apply (Hother _ Hd).
      * intros x [Hx|Hx%list_elem_of_singleton]%elem_of_app Hm Hnd'.
        -- rewrite Hattrs, lookup_insert_ne; [by apply N4|].
           intros Heq. by apply (Hother _ Hx).
        -- subst x. simpl in Hm. by rewrite Hu in Hm.
      * intros n Hn. apply Hkeys' in Hn as [Hn Hne].
        rewrite Hattrs, lookup_insert_ne by done. by apply N5.
      * rewrite defs_snoc, app_nil_r. by rewrite Hvc.
  - destruct Hstep as [-> ->]. by apply Hskip.
  - destruct Hstep as (Hmap & Hattrs & Hvc). split.
    + intros n s. rewrite Hmap, Hattrs. intros Hn.
      rewrite lookup_delete_ne; [by apply N1|].
      intros <-. by rewrite Hmm in Hn.
    + intros n. rewrite Hmap. intros Hn. by apply Hkeys, N2.
    + intros d' [Hd|Hd%list_elem_of_singleton]%elem_of_app.
      * rewrite Hattrs, lookup_delete_ne; [by apply N3|].
        intros Heq. by apply (Hother _ Hd).
      * injection Hd as ->. rewrite Hattrs. apply lookup_delete_eq.
    + intros x [Hx|Hx%list_elem_of_singleton]%elem_of_app Hm Hnd'.
      * rewrite Hattrs, lookup_delete_ne; [by apply N4|].
        intros Heq. by apply (Hother _ Hx).
      * subst x. by destruct (Hnd' d).
    + intros n Hn. apply Hkeys' in Hn as [Hn Hne].
      rewrite Hattrs, lookup_delete_ne by done. by apply N5.
    + rewrite defs_snoc. unfold install. rewrite foldl_snoc. rewrite Hvc.
      unfold value_cls_of. by rewrite N6.
Qed.

Lemma new_loop_ns name vc attrs items : forall done st w st' w',
  ns_inv name vc attrs done st w ->
  NoDup (entry_key <$> attrs) -> attrs = done ++ items ->
  new_loop vc st items w = (Ok st', w') ->
  ns_inv name vc attrs attrs st' w'.
Proof.
  induction items as [|e rest IH]; intros done st w st' w' Hinv Hnd Hsplit; simpl.
  - unfold ret. intros [= <- <-]. rewrite app_nil_r in Hsplit. by subst.
  - unfold bind. destruct (new_step vc st e w) as [[st1|err] w1] eqn:Hstep; [|done].
    apply (IH (done ++ [e])); [|done|by rewrite <- app_assoc].
    eapply new_step_ns; eauto.
    + rewrite Hsplit. apply elem_of_app. right. left.
    + rewrite Hsplit, fmap_app in Hnd. apply NoDup_app in Hnd as (_ & Hnd & _).
      intros Hin. apply (Hnd _ Hin). simpl. left.
Qed.

(** What [EnumMeta.__new__] leaves of the namespace it was given, and on
    the namedtuple class. *)
Lemma EnumMeta_new_namespace name bases attrs w cls w' :
  NoDup (entry_key <$> attrs) ->
  EnumMeta_new name bases attrs w = (Ok cls, w') ->
  exists k,
    enum_classes w' !! cls = Some k
    /\ value_classes w' !! next_oid w
       = Some (vc_set_actual cls (install (value_cls_made name) (defs attrs)))
    /\ (forall n s, _enum_member_map_ k !! n = Some s -> cls_dict k !! n = Some (AValue s))
    /\ (forall d, Def d ∈ attrs -> cls_dict k !! descr_name d = None)
    /\ (forall e, e ∈ attrs -> member_of e = None -> (forall d, e <> Def d) ->
          cls_dict k !! entry_key e = Some (entry_attr e)).
Proof.
  intros Hnd.
  unfold EnumMeta_new, _create_value_cls, bind, alloc, set_value_cls, modify, ret.
  simpl.
  match goal with |- context [new_loop ?v ?s attrs ?w1] =>
    destruct (new_loop v s attrs w1) as [[st|err] w2] eqn:Hloop end; [|done].
  apply (new_loop_ns name _ attrs attrs [] _ _ _ _) in Hloop; [|split; simpl|done|done].
  - destruct Hloop as [N1 N2 N3 N4 N5 N6].
    unfold set_enum_cls, update_value_cls, modify. simpl. intros [= <- <-]. simpl.
    eexists. split; [apply lookup_insert_eq|]. simpl. split_and!; try done.
    rewrite lookup_insert_eq. unfold value_cls_of. simpl. by rewrite N6.
  - by intros ? ? ?%lookup_empty_Some.
  - by intros ? [? ?%lookup_empty_Some].
  - by intros ? ?%elem_of_nil.
  - by intros ? ?%elem_of_nil.
  - done.
  - apply lookup_insert_eq.
Qed.



(** *** What reaches the namedtuple class *)

Lemma defs_elem attrs d : d ∈ defs attrs <-> Def d ∈ attrs.
Proof.
  unfold defs. rewrite list_elem_of_omap. split.
  - intros (e & He & Hd). destruct e; try done. by injection Hd as ->.
  - intros Hd. by exists (Def d).
Qed.

Lemma defs_names_NoDup attrs :
  NoDup (entry_key <$> attrs) -> NoDup (descr_name <$> defs attrs).
Proof.
  induction attrs as [|e attrs IH]; [constructor|].
  rewrite fmap_cons. intros [Hnot Hnd]%NoDup_cons.
  destruct e as [k v|k m|d]; simpl; try by apply IH.
  apply NoDup_cons. split; [|by apply IH].
  intros (d' & Hn & Hd')%list_elem_of_fmap. apply Hnot.
  apply list_elem_of_fmap. exists (Def d'). split; [done|]. by apply defs_elem.
Qed.

Lemma install_snoc c ds d : install c (ds ++ [d]) = vc_setattr d (install c ds).
Proof. unfold install. by rewrite foldl_snoc. Qed.

Lemma install_name c ds : vc_name (install c ds) = vc_name c.
Proof.
  induction ds as [|d ds IH] using rev_ind; [done|].
  rewrite install_snoc. by destruct d.
Qed.

(** The last definition under a name is the one in force; under distinct
    names, the only one. *)
Lemma install_flags c ds :
  NoDup (descr_name <$> ds) ->
  (forall f, Def_str f ∈ ds -> vc_str (install c ds) = Some f)
  /\ ((forall f, Def_str f ∉ ds) -> vc_str (install c ds) = vc_str c)
  /\ (forall f, Def_int f ∈ ds -> vc_int (install c ds) = Some f)
  /\ ((forall f, Def_int f ∉ ds) -> vc_int (install c ds) = vc_int c)
  /\ (Def_eq ∈ ds -> vc_eq (install c ds) = true)
  /\ (Def_eq ∉ ds -> vc_eq (install c ds) = vc_eq c).
Proof.
  induction ds as [|d ds IH] using rev_ind.
  { intros _. split_and!; try done; by intros ? ?%elem_of_nil || intros ?%elem_of_nil. }
  rewrite fmap_app. intros (Hnd & Hfresh & _)%NoDup_app.
  destruct (IH Hnd) as (S1 & S2 & I1 & I2 & E1 & E2).
  assert (Hname : forall d', d' ∈ ds -> descr_name d' <> descr_name d).
  { intros d' Hd' Heq. apply (Hfresh (descr_name d')).
    - by apply list_elem_of_fmap_2.
    - rewrite Heq. simpl. left. }
  rewrite install_snoc.
  split_and!.
  - intros f [Hf|Hf%list_elem_of_singleton]%elem_of_app.
    + destruct d; simpl; try (by apply S1). by destruct (Hname _ Hf).
    + by subst d.
  - intros Hno. assert (forall f, Def_str f ∉ ds).
    { intros f Hf. apply (Hno f), elem_of_app. by left. }
    destruct d; simpl; try (by apply S2).
    destruct (Hno f). apply elem_of_app. right. left.
  - intros f [Hf|Hf%list_elem_of_singleton]%elem_of_app.
    + destruct d; simpl; try (by apply I1). by destruct (Hname _ Hf).
    + by subst d.
  - intros Hno. assert (forall f, Def_int f ∉ ds).
    { intros f Hf. apply (Hno f), elem_of_app. by left. }
    destruct d; simpl; try (by apply I2).
    destruct (Hno f). apply elem_of_app. right. left.
  - intros [Hf|Hf%list_elem_of_singleton]%elem_of_app.
    + destruct d; simpl; try (by apply E1). done.
    + by subst d.
  - intros Hno. assert (Def_eq ∉ ds).
    { intros Hf. apply Hno, elem_of_app. by left. }
    destruct d; simpl; try (by apply E2).
    destruct Hno. apply elem_of_app. right. left.
Qed.

(** The namedtuple class of a class made from [attrs], in a store that
    still holds it as made. *)
Lemma value_cls_after_new name bases attrs w0 cls w1 w :
  NoDup (entry_key <$> attrs) ->
  EnumMeta_new name bases attrs w0 = (Ok cls, w1) ->
  value_classes w !! next_oid w0 = value_classes w1 !! next_oid w0 ->
  value_cls_of w (next_oid w0)
  = vc_set_actual cls (install (value_cls_made name) (defs attrs)).
Proof.
  intros Hnd Hnew Hsame.
  destruct (EnumMeta_new_namespace _ _ _ _ _ _ Hnd Hnew) as (k & _ & Hvc & _).
  unfold value_cls_of. by rewrite Hsame, Hvc.
Qed.

(** X10. [str()] and [int()] of the records of a class follow its body:
    without a [__str__] of its own a record prints as ['Name.member'],
    with [def __str__(self): return self.name] as its member name;
    without an [__int__] of its own [int(record)] raises [TypeError],
    with [def __int__(self): return self.value] it is the raw value when
    that is an int. *)
Theorem record_str_and_int name bases attrs w0 cls w1 w id n v :
  NoDup (entry_key <$> attrs) ->
  EnumMeta_new name bases attrs w0 = (Ok cls, w1) ->
  value_classes w !! next_oid w0 = value_classes w1 !! next_oid w0 ->
  let vc := next_oid w0 in
  ((forall f, Def (Def_str f) ∉ attrs) ->
     py_str w vc n v = Ok (PStr (name +:+ "." +:+ n)))
  /\ (Def (Def_str Fname) ∈ attrs -> py_str w vc n v = Ok (PStr n))
  /\ ((forall f, Def (Def_int f) ∉ attrs) -> exists msg, py_int w vc n v = Raise msg)
  /\ (Def (Def_int Fvalue) ∈ attrs ->
      forall z, v = PInt z -> py_int w vc n v = Ok (PInt z))
  /\ getattr_actual_enum_cls w (PSym id vc n v) = Ok cls.
Proof.
  intros Hnd Hnew Hsame vc.
  pose proof (value_cls_after_new _ _ _ _ _ _ _ Hnd Hnew Hsame) as Hvc.
  destruct (install_flags (value_cls_made name) (defs attrs) (defs_names_NoDup _ Hnd))
    as (S1 & S2 & I1 & I2 & _).
  unfold py_str, py_int, getattr_actual_enum_cls. subst vc. rewrite Hvc. simpl.
  split_and!.
  - intros Hno. rewrite S2, install_name; [done|].
    intros f Hf%defs_elem. by apply (Hno f).
  - intros Hin%defs_elem. by rewrite (S1 _ Hin).
  - intros Hno. rewrite I2; [simpl; eauto|].
    intros f Hf%defs_elem. by apply (Hno f).
  - intros Hin%defs_elem z ->. by rewrite (I1 _ Hin).
  - done.
Qed.

Lemma record_str_and_int_witness :
  NoDup (entry_key <$> three_kinds)
  /\ py_str three_kinds_world 0%nat "text" (PInt 0) = Ok (PStr "Kind.text")
  /\ exists msg, py_int three_kinds_world 0%nat "text" (PInt 0) = Raise msg.
Proof.
  assert (Hnd : NoDup (entry_key <$> three_kinds)).
  { apply (bool_decide_unpack _). vm_compute. exact I. }
  split; [exact Hnd|].
  destruct (record_str_and_int "Kind" [] three_kinds empty_world three_kinds_cls
              three_kinds_world three_kinds_world 1%nat "text" (PInt 0) Hnd)
    as (Hs & _ & Hi & _).
  { vm_compute. reflexivity. }
  { reflexivity. }
  split.
  - apply Hs. intros f Hin. vm_compute in Hin.
    repeat (apply elem_of_cons in Hin as [Hin|Hin]; [discriminate Hin|]).
    by apply elem_of_nil in Hin.
  - apply Hi. intros f Hin. vm_compute in Hin.
    repeat (apply elem_of_cons in Hin as [Hin|Hin]; [discriminate Hin|]).
    by apply elem_of_nil in Hin.
Defined.

(** X7. The [__eq__] of [ComponentType], on any class whose body defines
    it together with [__int__] (the value) and [__str__] (the name): a
    record equals exactly the ints equal to its raw value and the strs
    equal to its name, from either side; two records are equal when
    their raw values or their names are; a record never equals [None]. *)
Theorem loose_eq_of_records name bases attrs w0 cls w1 w :
  NoDup (entry_key <$> attrs) ->
  EnumMeta_new name bases attrs w0 = (Ok cls, w1) ->
  value_classes w !! next_oid w0 = value_classes w1 !! next_oid w0 ->
  Def Def_eq ∈ attrs -> Def (Def_int Fvalue) ∈ attrs -> Def (Def_str Fname) ∈ attrs ->
  forall id n v id' n' v' z t,
    let s := PSym id (next_oid w0) n (PInt v) in
    let s' := PSym id' (next_oid w0) n' (PInt v') in
    py_eq w s (PInt z) = Ok (Z.eqb v z)
    /\ py_eq w (PInt z) s = Ok (Z.eqb v z)
    /\ py_eq w s (PStr t) = Ok (String.eqb n t)
    /\ py_eq w (PStr t) s = Ok (String.eqb n t)
    /\ py_eq w s s' = Ok (Z.eqb v' v || String.eqb n' n)
    /\ py_eq w s PNone = Ok false.
Proof.
  intros Hnd Hnew Hsame He%defs_elem Hi%defs_elem Hs%defs_elem id n v id' n' v' z t.
  pose proof (value_cls_after_new _ _ _ _ _ _ _ Hnd Hnew Hsame) as Hvc.
  destruct (install_flags (value_cls_made name) (defs attrs) (defs_names_NoDup _ Hnd))
    as (S1 & _ & I1 & _ & E1 & _).
  assert (Heq : vc_eq (value_cls_of w (next_oid w0)) = true) by (rewrite Hvc; simpl; auto).
  assert (Hint : vc_int (value_cls_of w (next_oid w0)) = Some Fvalue)
    by (rewrite Hvc; simpl; auto).
  assert (Hstr : vc_str (value_cls_of w (next_oid w0)) = Some Fname)
    by (rewrite Hvc; simpl; auto).
  cbn zeta. split_and!.
  - cbn [py_eq]. rewrite Heq. unfold user_eq, py_int, py_str. rewrite Hint, Hstr. simpl.
    by destruct (Z.eqb v z).
  - cbn [py_eq]. unfold scalar_any_eq. cbn [scalar_eq]. rewrite Heq.
    unfold user_eq_scalar, py_int, py_str. rewrite Hint, Hstr. simpl.
    unfold scalar_scalar_eq. simpl. by destruct (Z.eqb v z).
  - cbn [py_eq]. rewrite Heq. unfold user_eq, py_int, py_str. rewrite Hint, Hstr. simpl.
    done.
  - cbn [py_eq]. unfold scalar_any_eq. cbn [scalar_eq]. rewrite Heq.
    unfold user_eq_scalar, py_int, py_str. rewrite Hint, Hstr. simpl.
    unfold scalar_scalar_eq. simpl. done.
  - cbn [py_eq]. rewrite Heq. unfold user_eq, py_int, py_str. rewrite Hint, Hstr. simpl.
    unfold scalar_any_eq. cbn [scalar_eq]. rewrite Heq.
    unfold user_eq_scalar, py_int, py_str. rewrite Hint, Hstr. simpl.
    unfold scalar_scalar_eq. simpl. by destruct (Z.eqb v' v).
  - cbn [py_eq]. rewrite Heq. unfold user_eq, py_int, py_str. rewrite Hint, Hstr. simpl.
    done.
Qed.

Lemma loose_eq_of_records_witness :
  NoDup (entry_key <$> namespace "ComponentType" ComponentType_body)
  /\ py_eq loaded (PInt 2) (PSym 17 15 "Button" (PInt 2)) = Ok true
  /\ py_eq loaded (PSym 17 15 "Button" (PInt 2)) (PStr "Button") = Ok true
  /\ py_eq loaded (PInt 2) (PStr "Button") = Ok false.
Proof.
  assert (Hnd : NoDup (entry_key <$> namespace "ComponentType" ComponentType_body)).
  { apply (bool_decide_unpack _). vm_compute. exact I. }
  split; [exact Hnd|].
  destruct (loose_eq_of_records "ComponentType" [Enum discord_enums]
              (namespace "ComponentType" ComponentType_body) before_ComponentType
              (ComponentType discord_enums)
              (snd (EnumMeta_new "ComponentType" [Enum discord_enums]
                      (namespace "ComponentType" ComponentType_body) before_ComponentType))
              loaded Hnd)
    with (id := 17%nat) (n := "Button") (v := 2) (id' := 17%nat) (n' := "Button")
         (v' := 2) (z := 2) (t := "Button")
    as (_ & H1 & H2 & _).
  { vm_compute. reflexivity. }
  { vm_compute. reflexivity. }
  { vm_compute. repeat first [left | right]. }
  { vm_compute. repeat first [left | right]. }
  { vm_compute. repeat first [left | right]. }
  split; [exact H1|]. split; [exact H2|]. reflexivity.
Defined.

(** X8. [target_type] on a record with an int raw value, member or not:
    ['all'] for -1, ['guild'] for every other value below 10 (negative
    ones too), then one name per decade up to 89, and [None] from 90 on;
    on a record whose raw value is a str it raises [TypeError]. *)
Theorem target_type_of_raw_value w id vc n :
  (forall z,
     (z = -1 -> target_type w (PSym id vc n (PInt z)) = Ok (PStr "all"))
     /\ (z < 10 -> z <> -1 -> target_type w (PSym id vc n (PInt z)) = Ok (PStr "guild"))
     /\ (10 <= z < 20 -> target_type w (PSym id vc n (PInt z)) = Ok (PStr "channel"))
     /\ (20 <= z < 30 -> target_type w (PSym id vc n (PInt z)) = Ok (PStr "user"))
     /\ (30 <= z < 40 -> target_type w (PSym id vc n (PInt z)) = Ok (PStr "role"))
     /\ (40 <= z < 50 -> target_type w (PSym id vc n (PInt z)) = Ok (PStr "invite"))
     /\ (50 <= z < 60 -> target_type w (PSym id vc n (PInt z)) = Ok (PStr "webhook"))
     /\ (60 <= z < 70 -> target_type w (PSym id vc n (PInt z)) = Ok (PStr "emoji"))
     /\ (70 <= z < 80 -> target_type w (PSym id vc n (PInt z)) = Ok (PStr "message"))
     /\ (80 <= z < 90 -> target_type w (PSym id vc n (PInt z)) = Ok (PStr "integration"))
     /\ (90 <= z -> target_type w (PSym id vc n (PInt z)) = Ok PNone))
  /\ (forall s, exists msg, target_type w (PSym id vc n (PStr s)) = Raise (TypeError msg)).
Proof.
  split.
  - intros z. unfold target_type, py_lt_int. cbn [py_eq]. unfold scalar_any_eq.
    cbn [scalar_eq lift_type_error res_bind].
    destruct (Z.eqb_spec z (-1)) as [->|Hne].
    { split_and!; intros; first [reflexivity | lia]. }
    split_and!; intros;
      repeat match goal with
        | |- context [Z.ltb ?a ?b] => destruct (Z.ltb_spec a b); cbn [res_bind]
        end; first [reflexivity | lia].
  - intros s. unfold target_type, py_lt_int. cbn. eauto.
Qed.

Lemma target_type_of_raw_value_witness :
  target_type loaded (PSym 0 0 "unknown" (PInt 121)) = Ok PNone
  /\ target_type loaded (PSym 0 0 "unknown" (PInt (-5))) = Ok (PStr "guild").
Proof.
  split.
  - apply (proj1 (target_type_of_raw_value loaded 0%nat 0%nat "unknown") 121). lia.
  - apply (proj1 (target_type_of_raw_value loaded 0%nat 0%nat "unknown") (-5)); lia.
Defined.

(** ** The checks of [GuildScheduledEvent.edit] *)

(** X11. The length checks on [name] and [description] never raise their
    [ValueError]: [1 > len(x) > hi] holds of no length when [hi] is not
    negative.  Any str passes,
    the empty one and one longer than the bound included; an absent key
    passes; only an object without [len()] makes the check raise. *)
Theorem length_checks_never_reject fields :
  (forall key hi, 0 <= hi ->
     length_check fields key hi = Ok tt
     \/ length_check fields key hi = Raise LenTypeError)
  /\ (forall s, fields !! "name" = Some (PStr s) -> check_name fields = Ok tt)
  /\ (forall s, fields !! "description" = Some (PStr s) -> check_description fields = Ok tt)
  /\ (fields !! "name" = None -> check_name fields = Ok tt)
  /\ (fields !! "name" = Some PNone -> check_name fields = Raise LenTypeError).
Proof.
  assert (Hnever : forall n hi, 0 <= hi ->
            Z.gtb 1 n && Z.gtb n hi = true -> 0 <= n -> False).
  { intros n hi Hhi [H1 H2]%andb_prop Hn.
    apply Z.gtb_lt in H1. apply Z.gtb_lt in H2. lia. }
  assert (Hlen : forall x n, py_len x = Some n -> 0 <= n).
  { intros x n. destruct x; simpl; try done; intros [= <-]; lia. }
  assert (Hgen : forall key hi, 0 <= hi ->
            length_check fields key hi = Ok tt
            \/ length_check fields key hi = Raise LenTypeError).
  { intros key hi Hhi. unfold length_check.
    destruct (fields !! key) as [x|]; [|by left].
    destruct (py_len x) as [n|] eqn:Hx; [|by right].
    destruct (Z.gtb 1 n && Z.gtb n hi) eqn:E; [|by left].
    destruct (Hnever n hi Hhi E (Hlen x n Hx)). }
  split_and!; [exact Hgen| | | |].
  - intros s Hs. destruct (Hgen "name" 100) as [H|H]; [lia|exact H|].
    unfold length_check in H. rewrite Hs in H. simpl in H.
    by destruct (_ && _).
  - intros s Hs. destruct (Hgen "description" 1000) as [H|H]; [lia|exact H|].
    unfold length_check in H. rewrite Hs in H. simpl in H.
    by destruct (_ && _).
  - intros Hs. unfold check_name, length_check. by rewrite Hs.
  - intros Hs. unfold check_name, length_check. by rewrite Hs.
Qed.

Lemma length_checks_never_reject_witness :
  check_name {[ "name" := PStr "" ]} = Ok tt
  /\ check_name {[ "name" := PNone ]} = Raise LenTypeError.
Proof.
  split.
  - apply (proj1 (proj2 (length_checks_never_reject {[ "name" := PStr "" ]})) "").
    reflexivity.
  - apply (proj2 (proj2 (proj2 (proj2
             (length_checks_never_reject {[ "name" := PNone ]}))))).
    reflexivity.
Defined.

(** X12. The status block lets no new status through whose [canceled] is
    true, whatever the current status: [scheduled and not active or
    canceled] is [(scheduled and not active) or canceled], so the
    [ValueError] that names "active or canceled" as the allowed targets
    is raised for a canceled target as well.  A scheduled event can be
    set active; the raw value then replaces the record in [fields]. *)
Theorem status_canceled_always_rejected
    (canceled completed active scheduled : pyval -> res edit_exn bool)
    w event_status current status fields :
  fields !! "status" = Some status ->
  EnumMeta_instancecheck w event_status status = Ok true ->
  (canceled status = Ok true ->
     (exists e, check_status canceled completed active scheduled w event_status
                  current fields = Raise e)
     /\ (forall c p a s b d,
           canceled current = Ok c -> completed current = Ok p ->
           active current = Ok a -> scheduled current = Ok s ->
           completed status = Ok b -> active status = Ok d ->
           exists msg, check_status canceled completed active scheduled w event_status
                         current fields = Raise (StatusValueError msg)))
  /\ (canceled status = Ok false -> active status = Ok true ->
      canceled current = Ok false -> completed current = Ok false ->
      active current = Ok false -> scheduled current = Ok true ->
      forall v, sym_value status = Some v ->
        check_status canceled completed active scheduled w event_status current fields
        = Ok (<["status" := v]> fields)).
Proof.
  intros Hf Hi. unfold check_status. rewrite Hf, Hi. split.
  - intros Hc. rewrite Hc. split.
    + destruct (canceled current) as [[]|]; simpl; eauto.
      destruct (completed current) as [[]|]; simpl; eauto.
      destruct (active current) as [[]|]; simpl; eauto.
      * destruct (completed status) as [[]|]; simpl; eauto.
        destruct (scheduled current) as [[]|]; simpl; eauto.
        destruct (active status) as [[]|]; simpl; eauto.
      * destruct (scheduled current) as [[]|]; simpl; eauto.
        destruct (active status) as [[]|]; simpl; eauto.
    + intros c p a s b d -> -> -> -> -> ->.
      destruct c, p, a, s, b, d; simpl; eauto.
  - intros Hc Ha Hcc Hcp Hca Hcs v Hv. rewrite Hc, Ha, Hcc, Hcp, Hca, Hcs, Hv.
    reflexivity.
Qed.

Lemma status_canceled_always_rejected_witness :
  exists e,
    check_status (is_named "canceled") (is_named "completed")
      (is_named "active") (is_named "scheduled")
      three_kinds_world three_kinds_cls (PSym 1 0 "scheduled" (PInt 1))
      {[ "status" := PSym 3 0 "canceled" (PInt 4) ]}
    = Raise e.
Proof.
  destruct (status_canceled_always_rejected
              (is_named "canceled") (is_named "completed")
              (is_named "active") (is_named "scheduled")
              three_kinds_world three_kinds_cls (PSym 1 0 "scheduled" (PInt 1))
              (PSym 3 0 "canceled" (PInt 4))
              {[ "status" := PSym 3 0 "canceled" (PInt 4) ]}) as [H _].
  - reflexivity.
  - vm_compute. reflexivity.
  - apply H. reflexivity.
Defined.

Lemma instancecheck_total w self x : exists b, EnumMeta_instancecheck w self x = Ok b.
Proof.
  unfold EnumMeta_instancecheck.
  destruct x as [| | | | |? [c|]|? vc ? ?]; simpl; eauto.
  destruct (_actual_enum_cls_ (value_cls_of w vc)); eauto.
Qed.

(** X13. The check on the ['type'] argument, over any symbol set: what
    it lets through is an instance of the class; an instance passes as
    it is, a declared raw value passes as the record the class resolves
    it to, and everything else is refused with the [ValueError]; no
    other exception comes out of it. *)
Theorem entity_type_check w cls attrs x :
  symbol_set w cls attrs ->
  (forall s, check_entity_type w cls x = Ok s -> EnumMeta_instancecheck w cls s = Ok true)
  /\ (EnumMeta_instancecheck w cls x = Ok true -> check_entity_type w cls x = Ok x)
  /\ (EnumMeta_instancecheck w cls x = Ok false -> declares attrs x ->
      exists s, EnumMeta_call w cls x = Ok s /\ check_entity_type w cls x = Ok s)
  /\ (EnumMeta_instancecheck w cls x = Ok false -> ~ declares attrs x ->
      check_entity_type w cls x = Raise EntityTypeValueError)
  /\ ((exists s, check_entity_type w cls x = Ok s)
      \/ check_entity_type w cls x = Raise EntityTypeValueError).
Proof.
  intros (k & vc & vrec & Hk & Hd & Hvc & Hact & Hs)%symbol_set_inv.
  assert (Hrec : forall i m, EnumMeta_instancecheck w cls (symbol_at (S vc) vc i m) = Ok true).
  { intros i m. unfold EnumMeta_instancecheck, symbol_at. simpl.
    unfold value_cls_of. rewrite Hvc. simpl. rewrite Hact. by rewrite Nat.eqb_refl. }
  assert (Hyes : declares attrs x ->
            exists i m, try_enum w cls x = Ok (symbol_at (S vc) vc i m)
                        /\ EnumMeta_call w cls x = Ok (symbol_at (S vc) vc i m)).
  { intros Hx. destruct (value_map_hit w vc attrs k x Hd Hs Hx) as (i & m & _ & _ & Hg).
    exists i, m. unfold try_enum, EnumMeta_call, enum_class. rewrite Hk. simpl.
    by rewrite Hg. }
  assert (Hno : ~ declares attrs x -> try_enum w cls x = Ok x).
  { intros Hx. unfold try_enum, enum_class. rewrite Hk. simpl.
    by destruct (value_map_miss w vc attrs k x Hd Hs Hx) as [-> | [msg ->]]. }
  unfold check_entity_type.
  destruct (instancecheck_total w cls x) as [[] Hb]; rewrite Hb.
  - split_and!.
    + by intros s [= <-].
    + done.
    + done.
    + done.
    + eauto.
  - destruct (declares_dec attrs x) as [Hx|Hx].
    + destruct (Hyes Hx) as (i & m & -> & Hc). rewrite Hrec.
      split_and!.
      * by intros s [= <-].
      * done.
      * eauto.
      * done.
      * eauto.
    + rewrite (Hno Hx), Hb. split_and!.
      * done.
      * done.
      * done.
      * done.
      * by right.
Qed.

Lemma entity_type_check_witness :
  symbol_set three_kinds_world three_kinds_cls three_kinds
  /\ check_entity_type three_kinds_world three_kinds_cls (PInt 7)
     = Raise EntityTypeValueError.
Proof.
  assert (H : symbol_set three_kinds_world three_kinds_cls three_kinds).
  { symbol_set_by_running "Kind" (@nil nat) empty_world three_kinds. }
  split; [exact H|].
  destruct (entity_type_check three_kinds_world three_kinds_cls three_kinds (PInt 7) H)
    as (_ & _ & _ & Hno & _).
  apply Hno.
  - vm_compute. reflexivity.
  - intros Hd%declares_iff.
    apply (bool_decide_pack _) in Hd. vm_compute in Hd. exact Hd.
Defined.
